(** * Trackma: the pyinotify tracker

    A shallow embedding of [trackma/tracker/pyinotify.py] and the
    properties of its process correlation, handle closure check, event
    dispatch, tracking state machine and watch loop.

    Python values are modelled as follows.
    - [str] is [string]; [bytes] is [list byte]; [None]-or-[str] is
      [option string]; truthiness is [truthy].
    - The procfs tree read by the tracker is a snapshot [ProcFS]: one
      [ProcEntry] per name listed in [/proc/], carrying what
      [os.listdir], [os.readlink] and reading [cmdline] give for it, each
      either a value or the [OSError] it raises.  Within one scan the
      command line of a process reads the same every time.
    - Methods of the tracker object are computations in the monad [M]: a
      state monad over [World] with exceptions, whose [trace] records
      every call made to a collaborator, in order.
    - The base class [TrackerBase], pyinotify's notifier and the
      messenger are not part of the file: the base class is the type
      class [TrackerBase], whose methods may change the inherited state
      and may raise; the notifier is a script of what each call of
      [check_events] meets. *)

From Stdlib Require Import ZArith List Bool Lia.
From Stdlib.Strings Require Import String Ascii Byte.
Import ListNotations.

Local Open Scope string_scope.
Local Open Scope Z_scope.

(** ** Python strings and bytes *)

Module Py.

(** Truth value of an object that is [None] or a [str]. *)
Definition truthy (v : option string) : bool :=
  match v with
  | None => false
  | Some EmptyString => false
  | Some (String _ _) => true
  end.

(** [str(v)], as the [%s] conversion applies it. *)
Definition str (v : option string) : string :=
  match v with
  | None => "None"
  | Some s => s
  end.

Definition is_digit_char (c : ascii) : bool :=
  let n := N_of_ascii c in (48 <=? n)%N && (n <=? 57)%N.

Fixpoint all_digits (s : string) : bool :=
  match s with
  | EmptyString => true
  | String c r => is_digit_char c && all_digits r
  end.

(** [s.isdigit()]: every character is a digit and there is at least
    one.  Strings are ASCII here, as the names procfs lists are, and a
    digit is one of 0 to 9. *)
Definition isdigit (s : string) : bool :=
  match s with
  | EmptyString => false
  | String _ _ => all_digits s
  end.

Definition startswith_sep (s : string) : bool :=
  match s with
  | String "/" _ => true
  | _ => false
  end.

Fixpoint endswith_sep (s : string) : bool :=
  match s with
  | EmptyString => false
  | String c EmptyString => Ascii.eqb c "/"
  | String _ r => endswith_sep r
  end.

(** [os.path.join(a, b)] of posixpath, for two components. *)
Definition os_path_join (a b : string) : string :=
  if startswith_sep b then b
  else if (String.eqb a "" || endswith_sep a)%bool then a ++ b
  else a ++ "/" ++ b.

(** [bs.partition(sep)] for a one-byte separator: the part before the
    first separator, the separator found (or nothing), and the rest. *)
Fixpoint partition (sep : byte) (bs : list byte)
  : list byte * list byte * list byte :=
  match bs with
  | [] => ([], [], [])
  | b :: r =>
      if Byte.eqb b sep then ([], [sep], r)
      else let '(h, s, t) := partition sep r in (b :: h, s, t)
  end.

Fixpoint bytes_prefix (p bs : list byte) : bool :=
  match p, bs with
  | [], _ => true
  | _ :: _, [] => false
  | x :: p', y :: bs' => Byte.eqb x y && bytes_prefix p' bs'
  end.

(** [re.compile(lit).search] for a pattern [lit] without
    metacharacters: does [lit] occur somewhere in [bs]? *)
Fixpoint literal_search (lit bs : list byte) : bool :=
  bytes_prefix lit bs ||
  match bs with
  | [] => false
  | _ :: r => literal_search lit r
  end.

End Py.

(** ** The procfs snapshot *)

Inductive OSError : Set :=
| PermissionError
| FileNotFoundError
| ProcessLookupError.

(** One descriptor listed in [/proc/<p>/fd/]: its name and what
    [os.readlink] gives for it. *)
Definition FdEntry : Set := (string * (OSError + string))%type.

Record ProcEntry : Set := mkProc {
  proc_name : string;                       (* a name listed in /proc/ *)
  proc_fds : OSError + list FdEntry;        (* os.listdir("/proc/<p>/fd/") *)
  proc_cmdline : OSError + list byte        (* reading /proc/<p>/cmdline *)
}.

Definition ProcFS : Set := list ProcEntry.

(** Debug messages of the process scan. *)
Inductive ScanMsg : Set :=
| PlayingProcess (p : string) (pname cmdline : list byte)
| NotReadByPlayer (pname : list byte)
| CouldntFindPlayingProcess.

(** ** The process correlator: [_is_being_played] *)

Section Correlator.

(** [self.re_players.search], the compiled player pattern. *)
Variable re_players : list byte -> bool.

(** The loop [for fd in os.listdir(d)] over the descriptors of process
    [p].  The result is [inl e] when an [OSError] escapes the loop,
    [inr (Some fd)] when the function returns [(p, fd)] and [inr None]
    when the loop runs to its end. *)
Fixpoint scan_fds (p : string) (cmdline : OSError + list byte)
    (filename : string) (fds : list FdEntry)
  : (OSError + option string) * list ScanMsg :=
  match fds with
  | [] => (inr None, [])
  | (fd, link) :: rest =>
      match link with
      | inl e => (inl e, [])
      | inr f =>
          if String.eqb f filename then
            match cmdline with
            | inl e => (inl e, [])
            | inr c =>
                let pname := fst (fst (Py.partition x00 c)) in
                let seen := PlayingProcess p pname c in
                if re_players pname then (inr (Some fd), [seen])
                else
                  let '(r, l) := scan_fds p cmdline filename rest in
                  (r, seen :: NotReadByPlayer pname :: l)
            end
          else scan_fds p cmdline filename rest
      end
  end.

(** The body of [for p in os.listdir("/proc/")] for one entry, with its
    [try ... except OSError: pass]: [Some fd] when the function returns
    [(p, fd)], [None] when the scan goes on with the next entry. *)
Definition scan_proc (filename : string) (e : ProcEntry)
  : option string * list ScanMsg :=
  if negb (Py.isdigit (proc_name e)) then (None, [])
  else
    match proc_fds e with
    | inl _ => (None, [])
    | inr fds =>
        match scan_fds (proc_name e) (proc_cmdline e) filename fds with
        | (inr (Some fd), l) => (Some fd, l)
        | (inr None, l) => (None, l)
        | (inl _, l) => (None, l)
        end
    end.

Fixpoint scan_procs (filename : string) (fs : ProcFS)
  : (option string * option string) * list ScanMsg :=
  match fs with
  | [] => ((None, None), [CouldntFindPlayingProcess])
  | e :: rest =>
      match scan_proc filename e with
      | (Some fd, l) => ((Some (proc_name e), Some fd), l)
      | (None, l) =>
          let '(r, l') := scan_procs filename rest in (r, (l ++ l')%list)
      end
  end.

Definition _is_being_played (fs : ProcFS) (filename : string)
  : (option string * option string) * list ScanMsg :=
  scan_procs filename fs.

End Correlator.

(** ** The handle closure checker: [_closed_handle] *)

Definition proc_fd_path (pid fd : string) : string :=
  "/proc/" ++ pid ++ "/fd/" ++ fd.

(** The descriptor links of the snapshot: every path
    [/proc/<p>/fd/<n>] that [lstat] reaches and finds to be a link.  A
    process whose descriptor directory cannot be entered shows none. *)
Definition fd_links (e : ProcEntry) : list string :=
  match proc_fds e with
  | inl _ => []
  | inr fds => map (fun d : FdEntry => proc_fd_path (proc_name e) (fst d)) fds
  end.

(** [os.path.islink(d)]: never raises, [False] when [lstat] fails.
    The path is looked up among the links of the snapshot as it is
    written: this is [lstat] for a path made of the names [os.listdir]
    returns, which have no separator inside. *)
Definition os_path_islink (fs : ProcFS) (d : string) : bool :=
  existsb (String.eqb d) (flat_map fd_links fs).

Definition _closed_handle (fs : ProcFS) (pid fd : option string) : bool :=
  let d := proc_fd_path (Py.str pid) (Py.str fd) in
  negb (os_path_islink fs d).

(** ** Exceptions, the base class and the world *)

Inductive Exn : Set :=
| OSErr (e : OSError)
| Exception (what : string).

Inductive Result (A : Type) : Type :=
| Ret (a : A)
| Raise (e : Exn).

Arguments Ret {A} a.
Arguments Raise {A} e.

(** What the tracker inherits from [tracker.TrackerBase] and reads from
    [utils]: the runtime fields the watch loop consults and the three
    collaborators it calls.  [B] is the state those own; a collaborator
    may change it and may raise. *)
Class TrackerBase (B ShowTuple : Type) : Type := {
  active : B -> bool;
  last_state : B -> Z;
  last_show_tuple : B -> ShowTuple;
  last_updated : B -> bool;
  TRACKER_NOVIDEO : Z;
  _emit_signal : string -> string -> string -> B -> Result unit * B;
  _get_playing_show : option string -> B -> Result (Z * ShowTuple) * B;
  update_show_if_needed : Z -> ShowTuple -> B -> Result unit * B
}.

Inductive DebugMsg (ShowTuple : Type) : Type :=
| GotOpenEvent (path name : string)
| AlreadyTracked
| GotStatus (state : Z) (show_tuple : ShowTuple)
| NotPlayedByPlayer
| GotCloseEvent (path name : string)
| DifferentFileClosed
| PidHasntClosed
| WatchingDirectory (watch_dir : string)
| SendingLastState (state : Z) (show_tuple : ShowTuple)
| Scan (m : ScanMsg).

Arguments GotOpenEvent {ShowTuple} path name.
Arguments AlreadyTracked {ShowTuple}.
Arguments GotStatus {ShowTuple} state show_tuple.
Arguments NotPlayedByPlayer {ShowTuple}.
Arguments GotCloseEvent {ShowTuple} path name.
Arguments DifferentFileClosed {ShowTuple}.
Arguments PidHasntClosed {ShowTuple}.
Arguments WatchingDirectory {ShowTuple} watch_dir.
Arguments SendingLastState {ShowTuple} state show_tuple.
Arguments Scan {ShowTuple} m.

Inductive InfoMsg : Set :=
| UsingPyinotify
| TrackerHasStopped.

(** Everything the tracker does to the outside, in the order it does it. *)
Inductive Effect (ShowTuple : Type) : Type :=
| Debug (m : DebugMsg ShowTuple)                  (* self.msg.debug *)
| Info (m : InfoMsg)                              (* self.msg.info *)
| ListProc                                        (* os.listdir("/proc/") *)
| IsLink (d : string)                             (* os.path.islink(d) *)
| Sleep100ms                                      (* time.sleep(0.1) *)
| EmitSignal (signal path name : string)          (* self._emit_signal *)
| GetPlayingShow (filename : option string)       (* self._get_playing_show *)
| UpdateShowIfNeeded (state : Z) (show_tuple : ShowTuple)
| AddWatch (watch_dir : string) (mask : Z)        (* wm.add_watch *)
| CheckEvents (timeout : option Z)                (* notifier.check_events *)
| ReadEvents                                      (* notifier.read_events *)
| NotifierStop.                                   (* notifier.stop *)

Arguments Debug {ShowTuple} m.
Arguments Info {ShowTuple} m.
Arguments ListProc {ShowTuple}.
Arguments IsLink {ShowTuple} d.
Arguments Sleep100ms {ShowTuple}.
Arguments EmitSignal {ShowTuple} signal path name.
Arguments GetPlayingShow {ShowTuple} filename.
Arguments UpdateShowIfNeeded {ShowTuple} state show_tuple.
Arguments AddWatch {ShowTuple} watch_dir mask.
Arguments CheckEvents {ShowTuple} timeout.
Arguments ReadEvents {ShowTuple}.
Arguments NotifierStop {ShowTuple}.

(** The slot [self.open_file]: [(None, None, None)] or
    [(pathname, pid, fd)]. *)
Definition OpenFile : Set :=
  (option string * option string * option string)%type.

Definition no_open_file : OpenFile := (None, None, None).

Record World (B ShowTuple : Type) : Type := mkWorld {
  open_file : OpenFile;                 (* self.open_file *)
  base : B;                             (* the inherited fields *)
  procfs : ProcFS;                      (* what /proc shows right now *)
  trace : list (Effect ShowTuple)       (* effects so far, oldest first *)
}.

Arguments mkWorld {B ShowTuple} open_file base procfs trace.
Arguments open_file {B ShowTuple} w.
Arguments base {B ShowTuple} w.
Arguments procfs {B ShowTuple} w.
Arguments trace {B ShowTuple} w.

(** ** pyinotify's event masks (the values of [inotify.h]) *)

Definition IN_CLOSE_WRITE : Z := 0x8.
Definition IN_CLOSE_NOWRITE : Z := 0x10.
Definition IN_OPEN : Z := 0x20.
Definition IN_MOVED_FROM : Z := 0x40.
Definition IN_MOVED_TO : Z := 0x80.
Definition IN_CREATE : Z := 0x100.
Definition IN_DELETE : Z := 0x200.
Definition IN_ISDIR : Z := 0x40000000.

Record Event : Set := mkEvent {
  ev_mask : Z;
  ev_path : string;
  ev_name : string
}.

(** The kind of an event: its mask without the directory flag. *)
Definition event_kind (event : Event) : Z :=
  ev_mask event - Z.land (ev_mask event) IN_ISDIR.

(** What one call of [notifier.check_events(timeout)] meets. *)
Inductive Poll : Set :=
| PollReady (queue : list (ProcFS * Event))  (* events arrived; each is
                                                handled under the procfs
                                                paired with it *)
| PollTimeout                                (* nothing arrived *)
| PollError (e : Exn).                       (* the call raises *)

(** What the body of the [while] loop leads to. *)
Inductive Next : Set :=
| Again (timeout : option Z)   (* next iteration, with this timeout *)
| Stuck.                       (* check_events(None) never returns *)

Inductive Outcome : Set :=
| Returned                     (* [self.active] was found false *)
| Raised (e : Exn)             (* an exception left the loop *)
| Blocked                      (* waiting for ever in check_events *)
| Running (timeout : option Z).  (* the script ended, the loop has not *)

(** ** The tracker: [pyinotifyTracker] *)

Section Tracker.

Context {B ShowTuple : Type} `{TB : TrackerBase B ShowTuple}.

(** [self.re_players.search], compiled in [__init__] from
    [process_name]. *)
Variable re_players : list byte -> bool.

Local Abbreviation world := (World B ShowTuple).

(** State and exceptions. *)
Definition M (A : Type) : Type := world -> Result A * world.

Definition ret {A} (a : A) : M A := fun w => (Ret a, w).

Definition raise {A} (e : Exn) : M A := fun w => (Raise e, w).

Definition bind {A C} (m : M A) (k : A -> M C) : M C :=
  fun w =>
    match m w with
    | (Ret a, w') => k a w'
    | (Raise e, w') => (Raise e, w')
    end.

Notation "x <- c1 ;; c2" := (bind c1 (fun x => c2))
  (at level 61, c1 at next level, right associativity).
Notation "c1 ;; c2" := (bind c1 (fun _ => c2))
  (at level 61, right associativity).

Definition effects (es : list (Effect ShowTuple)) : M unit :=
  fun w =>
    (Ret tt, mkWorld (open_file w) (base w) (procfs w) (trace w ++ es)%list).

Definition effect (e : Effect ShowTuple) : M unit := effects [e].

Definition debug (m : DebugMsg ShowTuple) : M unit := effect (Debug m).

Definition info (m : InfoMsg) : M unit := effect (Info m).

Definition get_open_file : M OpenFile := fun w => (Ret (open_file w), w).

Definition set_open_file (v : OpenFile) : M unit :=
  fun w => (Ret tt, mkWorld v (base w) (procfs w) (trace w)).

Definition get_base : M B := fun w => (Ret (base w), w).

Definition get_procfs : M ProcFS := fun w => (Ret (procfs w), w).

Definition set_procfs (fs : ProcFS) : M unit :=
  fun w => (Ret tt, mkWorld (open_file w) (base w) fs (trace w)).

(** A call of an inherited method: it runs on the base state. *)
Definition call {A} (f : B -> Result A * B) : M A :=
  fun w =>
    let '(r, b) := f (base w) in
    (r, mkWorld (open_file w) b (procfs w) (trace w)).

Definition self_emit_signal (signal path name : string) : M unit :=
  effect (EmitSignal signal path name) ;;
  call (_emit_signal signal path name).

Definition self_get_playing_show (filename : option string)
  : M (Z * ShowTuple) :=
  effect (GetPlayingShow filename) ;;
  call (_get_playing_show filename).

Definition self_update_show_if_needed (state : Z) (show_tuple : ShowTuple)
  : M unit :=
  effect (UpdateShowIfNeeded state show_tuple) ;;
  call (update_show_if_needed state show_tuple).

(** [self._is_being_played(filename)] on the procfs of the moment. *)
Definition self_is_being_played (filename : string)
  : M (option string * option string) :=
  fs <- get_procfs ;;
  effect ListProc ;;
  let '(r, l) := _is_being_played re_players fs filename in
  effects (map (fun m => Debug (Scan m)) l) ;;
  ret r.

(** [self._closed_handle(pid, fd)] on the procfs of the moment. *)
Definition self_closed_handle (pid fd : option string) : M bool :=
  fs <- get_procfs ;;
  effect (IsLink (proc_fd_path (Py.str pid) (Py.str fd))) ;;
  ret (_closed_handle fs pid fd).

Definition _proc_open (path name : string) : M unit :=
  debug (GotOpenEvent path name) ;;
  let pathname := Py.os_path_join path name in
  cur <- get_open_file ;;
  if Py.truthy (fst (fst cur)) then
    debug AlreadyTracked
  else
    r <- self_is_being_played pathname ;;
    let '(pid, fd) := r in
    if Py.truthy pid then
      self_emit_signal "detected" path name ;;
      set_open_file (Some pathname, pid, fd) ;;
      s <- self_get_playing_show (Some name) ;;
      let '(state, show_tuple) := s in
      debug (GotStatus state show_tuple) ;;
      self_update_show_if_needed state show_tuple
    else
      debug NotPlayedByPlayer.

Definition option_string_eqb (a b : option string) : bool :=
  match a, b with
  | Some x, Some y => String.eqb x y
  | None, None => true
  | _, _ => false
  end.

Definition _proc_close (path name : string) : M unit :=
  debug (GotCloseEvent path name) ;;
  let pathname := Py.os_path_join path name in
  cur <- get_open_file ;;
  let '(open_pathname, pid, fd) := cur in
  effect Sleep100ms ;;
  if negb (option_string_eqb (Some pathname) open_pathname) then
    debug DifferentFileClosed
  else
    closed <- self_closed_handle pid fd ;;
    if negb closed then
      debug PidHasntClosed
    else
      self_emit_signal "detected" path name ;;
      set_open_file no_open_file ;;
      s <- self_get_playing_show None ;;
      let '(state, show_tuple) := s in
      self_update_show_if_needed state show_tuple.

(** *** The event handler class of [observe] *)

Definition is_dir (event : Event) : bool :=
  negb (Z.land (ev_mask event) IN_ISDIR =? 0).

Definition process_IN_OPEN (event : Event) : M unit :=
  if negb (is_dir event) then _proc_open (ev_path event) (ev_name event)
  else ret tt.

Definition process_IN_CLOSE_NOWRITE (event : Event) : M unit :=
  if negb (is_dir event) then _proc_close (ev_path event) (ev_name event)
  else ret tt.

Definition process_IN_CLOSE_WRITE (event : Event) : M unit :=
  if negb (is_dir event) then _proc_close (ev_path event) (ev_name event)
  else ret tt.

Definition process_IN_CREATE (event : Event) : M unit :=
  if negb (is_dir event) then
    self_emit_signal "detected" (ev_path event) (ev_name event)
  else ret tt.

Definition process_IN_MOVED_TO (event : Event) : M unit :=
  if negb (is_dir event) then
    self_emit_signal "detected" (ev_path event) (ev_name event)
  else ret tt.

Definition process_IN_MOVED_FROM (event : Event) : M unit :=
  if negb (is_dir event) then
    self_emit_signal "removed" (ev_path event) (ev_name event)
  else ret tt.

Definition process_IN_DELETE (event : Event) : M unit :=
  if negb (is_dir event) then
    self_emit_signal "removed" (ev_path event) (ev_name event)
  else ret tt.

(** Calling the handler on an event that the watch of [observe]
    delivers: the directory flag is taken off the mask and the method
    named after what is left runs.  The watch asks for the seven kinds
    below; for the events the kernel sends unasked (queue overflow,
    watch removed, unmount) no method of this class runs, which is the
    last branch.  What pyinotify does with masks the watch cannot
    deliver (its lookup of a method by family name, its error for a
    mask it does not know) is outside this model. *)
Definition EventHandler (event : Event) : M unit :=
  let kind := event_kind event in
  if kind =? IN_OPEN then process_IN_OPEN event
  else if kind =? IN_CLOSE_NOWRITE then process_IN_CLOSE_NOWRITE event
  else if kind =? IN_CLOSE_WRITE then process_IN_CLOSE_WRITE event
  else if kind =? IN_CREATE then process_IN_CREATE event
  else if kind =? IN_MOVED_TO then process_IN_MOVED_TO event
  else if kind =? IN_MOVED_FROM then process_IN_MOVED_FROM event
  else if kind =? IN_DELETE then process_IN_DELETE event
  else ret tt.

(** [notifier.process_events()]: the queued events, one after the
    other. *)
Fixpoint process_events (queue : list (ProcFS * Event)) : M unit :=
  match queue with
  | [] => ret tt
  | (fs, event) :: rest =>
      set_procfs fs ;;
      EventHandler event ;;
      process_events rest
  end.

(** *** [observe] *)

Definition watch_mask : Z :=
  Z.lor IN_OPEN
    (Z.lor IN_CLOSE_NOWRITE
       (Z.lor IN_CLOSE_WRITE
          (Z.lor IN_CREATE
             (Z.lor IN_MOVED_FROM (Z.lor IN_MOVED_TO IN_DELETE))))).

(** The timeout chosen after a batch of events. *)
Definition next_timeout (b : B) : option Z :=
  if ((last_state b =? TRACKER_NOVIDEO) || last_updated b)%bool then None
  else Some 1000.

(** The body of [while self.active], for one answer of
    [check_events]. *)
Definition loop_body (poll : Poll) (timeout : option Z) : M Next :=
  effect (CheckEvents timeout) ;;
  match poll with
  | PollError e => raise e
  | PollReady queue =>
      effect ReadEvents ;;
      process_events queue ;;
      b <- get_base ;;
      ret (Again (next_timeout b))
  | PollTimeout =>
      match timeout with
      | None => ret Stuck
      | Some _ =>
          b <- get_base ;;
          debug (SendingLastState (last_state b) (last_show_tuple b)) ;;
          self_update_show_if_needed (last_state b) (last_show_tuple b) ;;
          ret (Again timeout)
      end
  end.

(** One turn of the loop as the outside sees it: what other threads
    did to the inherited fields since the last test of [self.active]
    (clearing [active] is how the tracker is told to stop), and what
    [check_events] then meets. *)
Record Tick : Type := mkTick {
  tick_controller : B -> B;
  tick_poll : Poll
}.

Definition controller (f : B -> B) (w : world) : world :=
  mkWorld (open_file w) (f (base w)) (procfs w) (trace w).

(** The [while self.active] loop, run against a script of ticks. *)
Fixpoint loop (script : list Tick) (timeout : option Z) (w : world)
  : Outcome * world :=
  match script with
  | [] => (Running timeout, w)
  | t :: rest =>
      let w1 := controller (tick_controller t) w in
      if negb (active (base w1)) then (Returned, w1)
      else
        match loop_body (tick_poll t) timeout w1 with
        | (Raise e, w2) => (Raised e, w2)
        | (Ret Stuck, w2) => (Blocked, w2)
        | (Ret (Again timeout'), w2) => loop rest timeout' w2
        end
  end.

(** The [finally] clause. *)
Definition finally (w : world) : world :=
  mkWorld (open_file w) (base w) (procfs w)
          (trace w ++ [NotifierStop; Info TrackerHasStopped])%list.

Definition observe_setup (watch_dir : string) (w : world) : world :=
  mkWorld (open_file w) (base w) (procfs w)
          (trace w ++ [Info UsingPyinotify;
                       Debug (WatchingDirectory watch_dir);
                       AddWatch watch_dir watch_mask])%list.

Definition observe (watch_dir : string) (interval : Z)
    (script : list Tick) (w : world) : Outcome * world :=
  match loop script None (observe_setup watch_dir w) with
  | (Returned, w') => (Returned, finally w')
  | (Raised e, w') => (Raised e, finally w')
  | (Blocked, w') => (Blocked, w')
  | (Running t, w') => (Running t, w')
  end.

End Tracker.

(** ** The correlator as its contract words it

    [find_player]: the first numeric process that holds a descriptor
    resolving to [filename] and whose command name matches the player
    pattern, with the first such descriptor. *)

Definition holds (filename : string) (d : FdEntry) : bool :=
  match snd d with
  | inr f => String.eqb f filename
  | inl _ => false
  end.

(** The command name: the first null-delimited field of the command
    line. *)
Definition command_name (c : list byte) : list byte :=
  fst (fst (Py.partition x00 c)).

Definition command_matches (re_players : list byte -> bool)
    (e : ProcEntry) : bool :=
  match proc_cmdline e with
  | inr c => re_players (command_name c)
  | inl _ => false
  end.

Definition descriptors (e : ProcEntry) : list FdEntry :=
  match proc_fds e with
  | inr fds => fds
  | inl _ => []
  end.

Definition is_player_of (re_players : list byte -> bool)
    (filename : string) (e : ProcEntry) : bool :=
  Py.isdigit (proc_name e)
  && existsb (holds filename) (descriptors e)
  && command_matches re_players e.

Definition find_player (re_players : list byte -> bool) (fs : ProcFS)
    (filename : string) : option (string * string) :=
  match find (is_player_of re_players filename) fs with
  | Some e =>
      option_map (fun d : FdEntry => (proc_name e, fst d))
                 (find (holds filename) (descriptors e))
  | None => None
  end.

(** A [ProcessMatch] as the pair [_is_being_played] returns. *)
Definition as_pair (m : option (string * string))
  : option string * option string :=
  match m with
  | Some (p, fd) => (Some p, Some fd)
  | None => (None, None)
  end.

(** Every access the scan can make to the entry succeeds. *)
Definition readable (e : ProcEntry) : bool :=
  match proc_fds e, proc_cmdline e with
  | inr fds, inr _ =>
      forallb (fun d : FdEntry =>
                 match snd d with inr _ => true | inl _ => false end) fds
  | _, _ => false
  end.

(** No access the scan can make to the table raises. *)
Definition all_readable (fs : ProcFS) : bool :=
  forallb (fun e => negb (Py.isdigit (proc_name e)) || readable e) fs.

(** The [OSError] that the [except] clause catches while the entry is
    scanned, if one is raised. *)
Definition caught (re_players : list byte -> bool) (filename : string)
    (e : ProcEntry) : option OSError :=
  if Py.isdigit (proc_name e) then
    match proc_fds e with
    | inl err => Some err
    | inr fds =>
        match fst (scan_fds re_players (proc_name e) (proc_cmdline e)
                            filename fds) with
        | inl err => Some err
        | inr _ => None
        end
    end
  else None.

(** The entry is scanned to its end or to a match: no access made to
    it raises. *)
Definition scanned (re_players : list byte -> bool) (filename : string)
    (e : ProcEntry) : bool :=
  match caught re_players filename e with
  | None => true
  | Some _ => false
  end.

(** A descriptor the scan reads and leaves behind: it resolves, to
    another file. *)
Definition passed_over (filename : string) (d : FdEntry) : Prop :=
  exists f, snd d = inr f /\ f <> filename.

(** The messages the scan logs about a process that holds the file. *)
Definition holder_msg (m : ScanMsg) : bool :=
  match m with
  | PlayingProcess _ _ _ => true
  | NotReadByPlayer _ => true
  | CouldntFindPlayingProcess => false
  end.

(** The messages that the scan of process [p] logs for the descriptors
    [fds] when its command name is not the player's: the two debug
    messages for each descriptor that resolves to the file, and nothing
    for the others.  Without a readable command line there is none. *)
Definition holder_msgs (p : string) (cmdline : OSError + list byte)
    (filename : string) (fds : list FdEntry) : list ScanMsg :=
  match cmdline with
  | inl _ => []
  | inr c =>
      flat_map (fun d : FdEntry =>
                  if holds filename d
                  then [PlayingProcess p (command_name c) c;
                        NotReadByPlayer (command_name c)]
                  else [])
               fds
  end.

(** The process entry cut down to the descriptors [read]. *)
Definition cut (e : ProcEntry) (read : list FdEntry) : ProcEntry :=
  mkProc (proc_name e) (inr read) (proc_cmdline e).

(** The process a message names. *)
Definition names_process (p : string) (m : ScanMsg) : bool :=
  match m with
  | PlayingProcess q _ _ => String.eqb q p
  | _ => false
  end.

(** The descriptor link [/proc/<p>/fd/<n>] is there. *)
Definition link_exists (fs : ProcFS) (p n : string) : Prop :=
  exists e fds target,
    In e fs /\ proc_name e = p /\ proc_fds e = inr fds /\ In (n, target) fds.

Fixpoint no_slash (s : string) : bool :=
  match s with
  | EmptyString => true
  | String c r => negb (Ascii.eqb c "/") && no_slash r
  end.

(** Names as [os.listdir] gives them: no separator inside. *)
Definition listed_names (fs : ProcFS) : Prop :=
  Forall (fun e => no_slash (proc_name e) = true) fs.

(** Every access failure met by the scan leaves a message naming the
    process in the log. *)
Definition failures_logged (re_players : list byte -> bool) (fs : ProcFS)
    (filename : string) : Prop :=
  forall e err,
    In e fs ->
    caught re_players filename e = Some err ->
    existsb (names_process (proc_name e))
            (snd (_is_being_played re_players fs filename)) = true.

(** Whenever the loop is about to wait, the timeout it holds is the one
    the runtime state calls for at that moment. *)
Definition timeout_tracks_state {B ShowTuple : Type}
    `{TrackerBase B ShowTuple} (re_players : list byte -> bool)
    (script : list Tick) (w0 : World B ShowTuple) : Prop :=
  forall k timeout w,
    loop re_players (firstn k script) None w0 = (Running timeout, w) ->
    timeout = next_timeout (base w).

(** The slot holds nothing or one whole record. *)
Definition slot_ok (f : OpenFile) : Prop :=
  f = no_open_file \/
  exists pathname pid fd, f = (Some pathname, Some pid, Some fd).

Definition is_debug {ShowTuple : Type} (e : Effect ShowTuple) : bool :=
  match e with
  | Debug _ => true
  | _ => false
  end.

Definition is_signal {ShowTuple : Type} (e : Effect ShowTuple) : bool :=
  match e with
  | EmitSignal _ _ _ => true
  | _ => false
  end.

(** ** A small consumer to run the tracker against

    A base class with no waiting time: a show is reported as playing
    when first seen and its update is sent when the same pair is
    submitted again. *)

Module Demo.

Definition ShowTuple : Set := option (string * Z).

Record Base : Set := mkBase {
  b_active : bool;
  b_last_state : Z;
  b_last_show_tuple : ShowTuple;
  b_last_updated : bool
}.

Definition NOVIDEO : Z := 0.
Definition PLAYING : Z := 1.

Definition show_eqb (a b : ShowTuple) : bool :=
  match a, b with
  | Some (s, n), Some (s', n') => String.eqb s s' && (n =? n')
  | None, None => true
  | _, _ => false
  end.

Definition emit_signal (signal path name : string) (b : Base)
  : Result unit * Base := (Ret tt, b).

Definition get_playing_show (filename : option string) (b : Base)
  : Result (Z * ShowTuple) * Base :=
  match filename with
  | Some name => (Ret (PLAYING, Some (name, 1)), b)
  | None => (Ret (NOVIDEO, None), b)
  end.

Definition update (state : Z) (show_tuple : ShowTuple) (b : Base)
  : Result unit * Base :=
  match show_tuple with
  | Some _ =>
      if show_eqb show_tuple (b_last_show_tuple b) then
        (Ret tt, mkBase (b_active b) state show_tuple true)
      else
        (Ret tt, mkBase (b_active b) state show_tuple false)
  | None => (Ret tt, mkBase (b_active b) state None false)
  end.

#[global] Instance demo_base : TrackerBase Base ShowTuple := {
  active := b_active;
  last_state := b_last_state;
  last_show_tuple := b_last_show_tuple;
  last_updated := b_last_updated;
  TRACKER_NOVIDEO := NOVIDEO;
  _emit_signal := emit_signal;
  _get_playing_show := get_playing_show;
  update_show_if_needed := update
}.

(** The player pattern [mpv]. *)
Definition re_mpv : list byte -> bool :=
  Py.literal_search (list_byte_of_string "mpv").

Definition mpv_cmdline : list byte :=
  (list_byte_of_string "/usr/bin/mpv" ++ [x00]
   ++ list_byte_of_string "--fullscreen")%list.

(** Process 42 plays [/media/show.mkv] on descriptor 5. *)
Definition playing : ProcFS :=
  [ mkProc "42" (inr [("5", inr "/media/show.mkv")]) (inr mpv_cmdline) ].

(** The same machine with more on it: an entry that is no process and
    a shell that mentions the player in its arguments and holds the file
    too. *)
Definition busy : ProcFS :=
  [ mkProc "cpuinfo" (inl FileNotFoundError) (inl FileNotFoundError);
    mkProc "13" (inr [("0", inr "/dev/null"); ("3", inr "/media/show.mkv");
                      ("4", inr "/media/show.mkv")])
           (inr (list_byte_of_string "/bin/sh" ++ [x00]
                 ++ list_byte_of_string "mpv")%list);
    mkProc "42" (inr [("0", inr "/dev/null"); ("5", inr "/media/show.mkv")])
           (inr mpv_cmdline) ].

(** Process 7 cannot be inspected; process 42 plays the file. *)
Definition guarded : ProcFS :=
  [ mkProc "7" (inl PermissionError) (inl PermissionError);
    mkProc "42" (inr [("5", inr "/media/show.mkv")]) (inr mpv_cmdline) ].

(** A shell holds the file on descriptor 3 and is closing descriptor
    4, which no longer resolves; process 42 plays the file. *)
Definition closing_shell : ProcEntry :=
  mkProc "13" (inr [("3", inr "/media/show.mkv");
                    ("4", inl FileNotFoundError);
                    ("5", inr "/media/show.mkv")])
         (inr (list_byte_of_string "/bin/sh")).

Definition fading : ProcFS :=
  [ closing_shell;
    mkProc "42" (inr [("5", inr "/media/show.mkv")]) (inr mpv_cmdline) ].

(** The player has gone. *)
Definition quiet : ProcFS :=
  [ mkProc "1" (inr [("0", inr "/dev/null")])
           (inr (list_byte_of_string "/sbin/init")) ].

Definition idle : World Base ShowTuple :=
  mkWorld no_open_file (mkBase true NOVIDEO None false) quiet [].

Definition tracking : World Base ShowTuple :=
  mkWorld (Some "/media/show.mkv", Some "42", Some "5")
          (mkBase true PLAYING (Some ("show.mkv", 1)) false) playing [].

(** The file is still in the slot, the player has gone. *)
Definition finished : World Base ShowTuple :=
  mkWorld (Some "/media/show.mkv", Some "42", Some "5")
          (mkBase true PLAYING (Some ("show.mkv", 1)) true) quiet [].

(** Nothing is tracked and the player has the file open. *)
Definition ready : World Base ShowTuple :=
  mkWorld no_open_file (mkBase true NOVIDEO None false) playing [].

(** Process 42 has the file open behind a descriptor that cannot be
    resolved. *)
Definition hidden : ProcEntry :=
  mkProc "42" (inr [("3", inl FileNotFoundError);
                    ("5", inr "/media/show.mkv")])
         (inr mpv_cmdline).

Definition open_show : Event := mkEvent IN_OPEN "/media" "show.mkv".
Definition close_show : Event := mkEvent IN_CLOSE_NOWRITE "/media" "show.mkv".

Definition tick (p : Poll) : @Tick Base := mkTick (fun b => b) p.

Definition stop_tick : @Tick Base :=
  mkTick (fun b => mkBase false (b_last_state b) (b_last_show_tuple b)
                          (b_last_updated b))
         PollTimeout.

(** The player opens the file; then nothing happens for two seconds. *)
Definition evening : list (@Tick Base) :=
  [ tick (PollReady [(playing, open_show)]); tick PollTimeout;
    tick PollTimeout ].

End Demo.

(** A computation only ever adds to the trace. *)
Definition extends {B ShowTuple A : Type}
    (m : World B ShowTuple -> Result A * World B ShowTuple) : Prop :=
  forall w, exists added, trace (snd (m w)) = (trace w ++ added)%list.

(** ** A consumer whose show resolver fails

    A base class that has no library to look the show up in: the
    resolver raises, the signal consumer and the update collaborator
    do nothing. *)

Module Faulty.

Record Base : Set := mkBase {
  b_active : bool;
  b_signals : nat       (* how many signals the consumer has seen *)
}.

Definition no_library : Exn := Exception "no library".

#[global] Instance faulty_base : TrackerBase Base unit := {
  active := b_active;
  last_state := fun _ => 0;
  last_show_tuple := fun _ => tt;
  last_updated := fun _ => false;
  TRACKER_NOVIDEO := 0;
  _emit_signal := fun _ _ _ b => (Ret tt, mkBase (b_active b) (S (b_signals b)));
  _get_playing_show := fun _ b => (Raise no_library, b);
  update_show_if_needed := fun _ _ b => (Ret tt, b)
}.

Definition ready : World Base unit :=
  mkWorld no_open_file (mkBase true 0) Demo.playing [].

Definition finished : World Base unit :=
  mkWorld (Some "/media/show.mkv", Some "42", Some "5") (mkBase true 1)
          Demo.quiet [].

End Faulty.

(** ** Notions used for the further properties *)

(** A record of the slot as the tracker writes it: all three parts set,
    the process id numeric. *)
Definition record_ok (f : OpenFile) : Prop :=
  f = no_open_file \/
  exists pathname pid fd,
    f = (Some pathname, Some pid, Some fd) /\ Py.isdigit pid = true.

(** A computation adds to the trace only effects that satisfy [P]. *)
Definition adds {B ShowTuple A : Type} (P : Effect ShowTuple -> Prop)
    (m : World B ShowTuple -> Result A * World B ShowTuple) : Prop :=
  forall w,
    exists added, trace (snd (m w)) = (trace w ++ added)%list /\ Forall P added.

(** What handling the events of a queue may do to the outside: log,
    read procfs, sleep, call the show resolver and the update
    collaborator, and emit [detected] or [removed] for a file event of
    the queue.  It does not touch the notifier. *)
Definition handler_effect {ShowTuple : Type} (queue : list (ProcFS * Event))
    (e : Effect ShowTuple) : Prop :=
  match e with
  | EmitSignal signal path name =>
      (signal = "detected" \/ signal = "removed") /\
      exists q,
        In q queue /\ is_dir (snd q) = false /\
        path = ev_path (snd q) /\ name = ev_name (snd q)
  | Info _ | AddWatch _ _ | CheckEvents _ | ReadEvents | NotifierStop => False
  | _ => True
  end.

(** What the loop may do between the setup and the [finally] clause:
    anything but announcing itself, adding a watch or stopping the
    notifier, and it waits with no timeout or with 1000 ms. *)
Definition loop_effect {ShowTuple : Type} (e : Effect ShowTuple) : Prop :=
  match e with
  | CheckEvents timeout => timeout = None \/ timeout = Some 1000
  | Info _ | AddWatch _ _ | NotifierStop => False
  | _ => True
  end.

(** The two timeouts of the loop. *)
Definition timeout_ok (timeout : option Z) : Prop :=
  timeout = None \/ timeout = Some 1000.

Definition exited (o : Outcome) : bool :=
  match o with
  | Returned | Raised _ => true
  | Blocked | Running _ => false
  end.

(** The same process entry with its descriptors pointing elsewhere. *)
Definition retarget (g : string -> string -> OSError + string)
    (e : ProcEntry) : ProcEntry :=
  mkProc (proc_name e)
    (match proc_fds e with
     | inl err => inl err
     | inr fds =>
         inr (map (fun d : FdEntry => (fst d, g (proc_name e) (fst d))) fds)
     end)
    (proc_cmdline e).


(** * Properties *)

Local Open Scope list_scope.

(** ** The process correlator *)

Section CorrelatorFacts.

Variable re_players : list byte -> bool.
Variable filename : string.

Lemma scan_procs_hit (e : ProcEntry) (rest : ProcFS) (fd : string) :
  fst (scan_proc re_players filename e) = Some fd ->
  fst (scan_procs re_players filename (e :: rest))
  = (Some (proc_name e), Some fd).
Proof.
  simpl. destruct (scan_proc re_players filename e) as [[fd'|] l]; simpl.
  - now intros [= ->].
  - discriminate.
Qed.

Lemma scan_procs_skip (e : ProcEntry) (rest : ProcFS) :
  fst (scan_proc re_players filename e) = None ->
  fst (scan_procs re_players filename (e :: rest))
  = fst (scan_procs re_players filename rest).
Proof.
  simpl. destruct (scan_proc re_players filename e) as [[fd'|] l]; simpl.
  - discriminate.
  - intros _. now destruct (scan_procs re_players filename rest).
Qed.

Lemma scan_procs_skip_log (e : ProcEntry) (rest : ProcFS) :
  fst (scan_proc re_players filename e) = None ->
  snd (scan_procs re_players filename (e :: rest))
  = (snd (scan_proc re_players filename e)
     ++ snd (scan_procs re_players filename rest))%list.
Proof.
  simpl. destruct (scan_proc re_players filename e) as [[fd'|] l]; simpl.
  - discriminate.
  - intros _. now destruct (scan_procs re_players filename rest).
Qed.

(** The scan does not look behind the first process that yields a
    descriptor. *)
Lemma scan_procs_first (pre : ProcFS) (e : ProcEntry) (post : ProcFS)
    (fd : string) :
  (forall e', In e' pre -> fst (scan_proc re_players filename e') = None) ->
  fst (scan_proc re_players filename e) = Some fd ->
  fst (scan_procs re_players filename (pre ++ e :: post))
  = (Some (proc_name e), Some fd).
Proof.
  intros Hpre He. induction pre as [|a pre IH]; simpl app.
  - now apply scan_procs_hit.
  - rewrite scan_procs_skip by (apply Hpre; now left).
    apply IH. intros e' Hin. apply Hpre. now right.
Qed.

(** A process that yields nothing can be taken out of the table
    without changing the answer. *)
Lemma scan_procs_drop (pre : ProcFS) (e : ProcEntry) (post : ProcFS) :
  fst (scan_proc re_players filename e) = None ->
  fst (scan_procs re_players filename (pre ++ e :: post))
  = fst (scan_procs re_players filename (pre ++ post)).
Proof.
  intros He. induction pre as [|a pre IH]; simpl app.
  - now apply scan_procs_skip.
  - destruct (fst (scan_proc re_players filename a)) as [fd|] eqn:Ha.
    + now rewrite !(scan_procs_hit _ _ _ Ha).
    + now rewrite !scan_procs_skip.
Qed.

Lemma scan_procs_none (fs : ProcFS) :
  (forall e, In e fs -> fst (scan_proc re_players filename e) = None) ->
  fst (scan_procs re_players filename fs) = (None, None).
Proof.
  induction fs as [|a fs IH]; intros Hall.
  - reflexivity.
  - rewrite scan_procs_skip by (apply Hall; now left).
    apply IH. intros e Hin. apply Hall. now right.
Qed.

Lemma scan_procs_last_msg (fs : ProcFS) :
  fst (scan_procs re_players filename fs) = (None, None) ->
  exists l,
    snd (scan_procs re_players filename fs)
    = (l ++ [CouldntFindPlayingProcess])%list.
Proof.
  induction fs as [|a fs IH]; simpl.
  - intros _. now exists [].
  - destruct (scan_proc re_players filename a) as [[fd|] l]; simpl.
    + discriminate.
    + destruct (scan_procs re_players filename fs) as [r l'] eqn:E.
      simpl in *. intros Hr. destruct (IH Hr) as [l0 ->].
      exists (l ++ l0)%list. now rewrite app_assoc.
Qed.

(** Where a result of the scan comes from. *)
Lemma scan_procs_found (fs : ProcFS) (p fd : string) :
  fst (scan_procs re_players filename fs) = (Some p, Some fd) ->
  exists pre e post,
    fs = (pre ++ e :: post)%list /\
    proc_name e = p /\
    fst (scan_proc re_players filename e) = Some fd /\
    (forall e', In e' pre -> fst (scan_proc re_players filename e') = None).
Proof.
  induction fs as [|a fs IH]; simpl.
  - discriminate.
  - destruct (scan_proc re_players filename a) as [[fd'|] l] eqn:Ea; simpl.
    + intros [= <- <-]. exists [], a, fs. rewrite Ea. simpl.
      repeat split; auto. intros e' [].
    + destruct (scan_procs re_players filename fs) as [r l'] eqn:E.
      simpl in *. intros Hr.
      destruct (IH Hr) as (pre & e & post & -> & Hn & He & Hpre).
      exists (a :: pre), e, post. repeat split; auto.
      intros e' [<- | Hin]; [now rewrite Ea | now apply Hpre].
Qed.

(** The result is never half a pair. *)
Lemma scan_procs_shape (fs : ProcFS) :
  fst (scan_procs re_players filename fs) = (None, None) \/
  exists p fd,
    fst (scan_procs re_players filename fs) = (Some p, Some fd) /\
    Py.isdigit p = true.
Proof.
  induction fs as [|a fs IH]; simpl.
  - now left.
  - destruct (scan_proc re_players filename a) as [[fd'|] l] eqn:Ea; simpl.
    + right. exists (proc_name a), fd'. split; [reflexivity|].
      unfold scan_proc in Ea.
      destruct (Py.isdigit (proc_name a)); [reflexivity | discriminate].
    + destruct (scan_procs re_players filename fs) as [r l']. exact IH.
Qed.

(** *** The loop over the descriptors *)

Lemma scan_fds_pass (p : string) (cmdline : OSError + list byte)
    (before rest : list FdEntry) :
  Forall (passed_over filename) before ->
  scan_fds re_players p cmdline filename (before ++ rest)
  = scan_fds re_players p cmdline filename rest.
Proof.
  induction 1 as [|[fd link] before (f & Hf & Hne) _ IH]; [reflexivity|].
  simpl in *. subst link.
  destruct (String.eqb_spec f filename); [contradiction | exact IH].
Qed.

Lemma scan_fds_found (p : string) (cmdline : OSError + list byte)
    (fds : list FdEntry) (fd : string) :
  fst (scan_fds re_players p cmdline filename fds) = inr (Some fd) ->
  exists c before after,
    cmdline = inr c /\
    re_players (command_name c) = true /\
    fds = (before ++ (fd, inr filename) :: after)%list /\
    Forall (passed_over filename) before.
Proof.
  induction fds as [|[n link] fds IH]; simpl; [discriminate|].
  destruct link as [err|f]; [discriminate|].
  destruct (String.eqb_spec f filename) as [->|Hne].
  - destruct cmdline as [err|c]; [discriminate|].
    fold (command_name c).
    destruct (re_players (command_name c)) eqn:Hre; simpl.
    + intros [= ->]. exists c, [], fds. repeat split; auto.
    + destruct (scan_fds re_players p (inr c) filename fds) as [r l] eqn:E.
      simpl in *. intros Hr.
      destruct (IH Hr) as (c' & before & after & [= <-] & Hre' & _).
      congruence.
  - intros Hr.
    destruct (IH Hr) as (c & before & after & -> & Hre & -> & Hb).
    exists c, ((n, inr f) :: before)%list, after. repeat split; auto.
    constructor; [now exists f | exact Hb].
Qed.

Lemma scan_fds_first (p : string) (c : list byte)
    (before after : list FdEntry) (fd : string) :
  re_players (command_name c) = true ->
  Forall (passed_over filename) before ->
  scan_fds re_players p (inr c) filename
           (before ++ (fd, inr filename) :: after)
  = (inr (Some fd), [PlayingProcess p (command_name c) c]).
Proof.
  intros Hre Hb. rewrite scan_fds_pass by exact Hb. simpl.
  rewrite String.eqb_refl. fold (command_name c). now rewrite Hre.
Qed.

(** A holder whose command name is not the player's: the two messages
    are logged and the loop goes on with the descriptors that remain. *)
Lemma scan_fds_other_holder (p : string) (c : list byte) (fd : string)
    (rest : list FdEntry) :
  re_players (command_name c) = false ->
  scan_fds re_players p (inr c) filename ((fd, inr filename) :: rest)
  = (fst (scan_fds re_players p (inr c) filename rest),
     PlayingProcess p (command_name c) c
       :: NotReadByPlayer (command_name c)
       :: snd (scan_fds re_players p (inr c) filename rest)).
Proof.
  intros Hre. simpl. rewrite String.eqb_refl. fold (command_name c).
  rewrite Hre. now destruct (scan_fds re_players p (inr c) filename rest).
Qed.

(** With a command name that does not match, no descriptor is ever
    returned. *)
Lemma scan_fds_no_match (p : string) (c : list byte) (fds : list FdEntry) :
  re_players (command_name c) = false ->
  forall fd,
    fst (scan_fds re_players p (inr c) filename fds) <> inr (Some fd).
Proof.
  intros Hre fd Hr.
  destruct (scan_fds_found _ _ _ _ Hr) as (c' & _ & _ & [= <-] & Hre' & _).
  congruence.
Qed.

Lemma scan_fds_holder_msgs (p : string) (cmdline : OSError + list byte)
    (fds : list FdEntry) :
  forallb holder_msg
          (snd (scan_fds re_players p cmdline filename fds)) = true.
Proof.
  induction fds as [|[n link] fds IH]; simpl; [reflexivity|].
  destruct link as [err|f]; [reflexivity|].
  destruct (String.eqb f filename); [|exact IH].
  destruct cmdline as [err|c]; [reflexivity|].
  destruct (re_players (fst (fst (Py.partition x00 c)))); [reflexivity|].
  destruct (scan_fds re_players p (inr c) filename fds) as [r l].
  simpl in *. exact IH.
Qed.

Lemma scan_proc_holder_msgs (e : ProcEntry) :
  forallb holder_msg (snd (scan_proc re_players filename e)) = true.
Proof.
  unfold scan_proc. destruct (negb (Py.isdigit (proc_name e))); [reflexivity|].
  destruct (proc_fds e) as [err|fds]; [reflexivity|].
  pose proof (scan_fds_holder_msgs (proc_name e) (proc_cmdline e) fds) as H.
  destruct (scan_fds re_players (proc_name e) (proc_cmdline e) filename fds)
    as [[err|[fd|]] l]; exact H.
Qed.

(** An entry whose scan raises yields nothing. *)
Lemma caught_skips (e : ProcEntry) (err : OSError) :
  caught re_players filename e = Some err ->
  fst (scan_proc re_players filename e) = None.
Proof.
  unfold caught, scan_proc.
  destruct (Py.isdigit (proc_name e)); simpl; [|discriminate].
  destruct (proc_fds e) as [err'|fds]; [reflexivity|].
  destruct (scan_fds re_players (proc_name e) (proc_cmdline e) filename fds)
    as [[err'|[fd|]] l]; simpl; try reflexivity; discriminate.
Qed.

End CorrelatorFacts.

Section CorrelatorContract.

Variable re_players : list byte -> bool.
Variable filename : string.

Lemma existsb_find {A : Type} (f : A -> bool) (l : list A) :
  existsb f l = match find f l with Some _ => true | None => false end.
Proof.
  induction l as [|a l IH]; simpl; [reflexivity|].
  destruct (f a); [reflexivity | exact IH].
Qed.

Lemma scan_fds_readable (p : string) (c : list byte) (fds : list FdEntry) :
  forallb (fun d : FdEntry =>
             match snd d with inr _ => true | inl _ => false end) fds = true ->
  fst (scan_fds re_players p (inr c) filename fds)
  = inr (if re_players (command_name c)
         then option_map fst (find (holds filename) fds)
         else None).
Proof.
  induction fds as [|[n link] fds IH]; simpl.
  - now destruct (re_players (command_name c)).
  - destruct link as [err|f]; simpl; [discriminate|]. intros Hall.
    unfold holds at 1. simpl. fold (command_name c).
    destruct (String.eqb f filename).
    + destruct (re_players (command_name c)) eqn:Hre; [reflexivity|].
      specialize (IH Hall).
      now destruct (scan_fds re_players p (inr c) filename fds).
    + exact (IH Hall).
Qed.

Lemma scan_proc_readable (e : ProcEntry) :
  Py.isdigit (proc_name e) = true ->
  readable e = true ->
  fst (scan_proc re_players filename e)
  = if command_matches re_players e
    then option_map fst (find (holds filename) (descriptors e))
    else None.
Proof.
  intros Hd Hr. unfold scan_proc, readable, command_matches, descriptors in *.
  rewrite Hd. simpl.
  destruct (proc_fds e) as [err|fds]; [discriminate|].
  destruct (proc_cmdline e) as [err|c]; [discriminate|].
  pose proof (scan_fds_readable (proc_name e) c fds Hr) as H.
  destruct (scan_fds re_players (proc_name e) (inr c) filename fds)
    as [[err|[fd|]] l]; simpl in H |- *; [discriminate| |];
    now injection H.
Qed.

Lemma find_player_cons (e : ProcEntry) (fs : ProcFS) :
  find_player re_players (e :: fs) filename
  = if is_player_of re_players filename e
    then option_map (fun d : FdEntry => (proc_name e, fst d))
                    (find (holds filename) (descriptors e))
    else find_player re_players fs filename.
Proof.
  unfold find_player. simpl.
  now destruct (is_player_of re_players filename e).
Qed.

(** On a table where nothing raises, the scan computes the contract. *)
Lemma scan_procs_refines (fs : ProcFS) :
  all_readable fs = true ->
  fst (scan_procs re_players filename fs)
  = as_pair (find_player re_players fs filename).
Proof.
  induction fs as [|e fs IH]; [reflexivity|].
  intros Hall. apply andb_true_iff in Hall as [He Hall].
  specialize (IH Hall). rewrite find_player_cons. unfold is_player_of.
  destruct (Py.isdigit (proc_name e)) eqn:Hd.
  - pose proof (scan_proc_readable e Hd He) as Hs.
    rewrite existsb_find.
    destruct (command_matches re_players e);
      destruct (find (holds filename) (descriptors e)) as [d|];
      cbn [andb option_map as_pair] in Hs |- *.
    + now rewrite (scan_procs_hit _ _ _ _ _ Hs).
    + now rewrite scan_procs_skip.
    + now rewrite scan_procs_skip.
    + now rewrite scan_procs_skip.
  - cbn [andb]. rewrite scan_procs_skip; [exact IH|].
    unfold scan_proc. now rewrite Hd.
Qed.

(** What the loop over the descriptors returns when nothing raises. *)
Lemma scan_fds_spec (p : string) (cmdline : OSError + list byte)
    (fds : list FdEntry) (r : option string) :
  fst (scan_fds re_players p cmdline filename fds) = inr r ->
  r = if existsb (holds filename) fds
         && match cmdline with
            | inr c => re_players (command_name c)
            | inl _ => false
            end
      then option_map fst (find (holds filename) fds)
      else None.
Proof.
  revert r. induction fds as [|[n link] fds IH]; simpl; intros r.
  - now intros [= <-].
  - destruct link as [err|f]; [discriminate|].
    unfold holds at 1 3. simpl.
    destruct (String.eqb f filename); simpl.
    + destruct cmdline as [err|c]; [discriminate|]. unfold command_name in *.
      destruct (re_players (fst (fst (Py.partition x00 c)))) eqn:Hre; simpl.
      * now intros [= <-].
      * destruct (scan_fds re_players p (inr c) filename fds) as [r' l].
        simpl in *. intros Hr. rewrite (IH r Hr).
        now rewrite andb_false_r.
    + exact (IH r).
Qed.

Lemma scan_proc_spec (e : ProcEntry) :
  scanned re_players filename e = true ->
  fst (scan_proc re_players filename e)
  = if is_player_of re_players filename e
    then option_map fst (find (holds filename) (descriptors e))
    else None.
Proof.
  unfold scanned, caught, scan_proc, is_player_of, command_matches,
    descriptors.
  destruct (Py.isdigit (proc_name e)); simpl; [|reflexivity].
  destruct (proc_fds e) as [err|fds]; [discriminate|].
  pose proof (scan_fds_spec (proc_name e) (proc_cmdline e) fds) as Hspec.
  destruct (scan_fds re_players (proc_name e) (proc_cmdline e) filename fds)
    as [[err|r] l]; simpl in *; [discriminate|]. intros _.
  rewrite <- (Hspec r eq_refl). now destruct r.
Qed.

(** The scan computes the contract on the processes it could scan. *)
Lemma scan_procs_spec (fs : ProcFS) :
  fst (scan_procs re_players filename fs)
  = as_pair (find_player re_players
               (filter (scanned re_players filename) fs) filename).
Proof.
  induction fs as [|e fs IH]; [reflexivity|]. simpl filter.
  destruct (scanned re_players filename e) eqn:Hs.
  - rewrite find_player_cons. pose proof (scan_proc_spec e Hs) as He.
    destruct (is_player_of re_players filename e) eqn:Hp.
    + destruct (find (holds filename) (descriptors e)) as [d|] eqn:Hf;
        cbn [option_map as_pair] in He |- *.
      * now rewrite (scan_procs_hit _ _ _ _ _ He).
      * unfold is_player_of in Hp. rewrite existsb_find, Hf in Hp.
        now rewrite andb_false_r in Hp.
    + now rewrite scan_procs_skip.
  - rewrite scan_procs_skip; [exact IH|].
    unfold scanned in Hs.
    destruct (caught re_players filename e) as [err|] eqn:Hc;
      [|discriminate].
    exact (caught_skips _ _ _ _ Hc).
Qed.

Lemma scan_procs_drop_log (pre : ProcFS) (e : ProcEntry) (post : ProcFS) :
  scan_proc re_players filename e = (None, []) ->
  snd (scan_procs re_players filename (pre ++ e :: post))
  = snd (scan_procs re_players filename (pre ++ post)).
Proof.
  intros He. induction pre as [|a pre IH]; simpl app.
  - rewrite scan_procs_skip_log by now rewrite He. now rewrite He.
  - destruct (fst (scan_proc re_players filename a)) as [fd|] eqn:Ha.
    + simpl. destruct (scan_proc re_players filename a) as [[fd'|] l];
        [reflexivity | discriminate].
    + rewrite !scan_procs_skip_log by exact Ha. now rewrite IH.
Qed.

End CorrelatorContract.

(** C4.  Whatever the process table and the file name, a pair returned
    by the process correlator is the name of a numeric entry and one of
    its descriptors, the first one that resolves to exactly the file
    name, in the first process where that happens with a command name
    (the first null-delimited field of the command line, not the whole
    argument vector) that the player pattern matches; nothing behind
    that process changes the answer, and a process and descriptor in
    that position are always the answer.  The answer is the contract's
    [find_player] on the processes the scan could read, which are all
    of them on a table where no access raises.  Process 42
    with descriptor 5 on /media/show.mkv and command line
    /usr/bin/mpv\0--fullscreen gives ("42", "5") under the pattern mpv. *)
Theorem C4_first_match_is_returned (re_players : list byte -> bool)
    (fs : ProcFS) (filename : string) :
  (forall p fd,
      fst (_is_being_played re_players fs filename) = (Some p, Some fd) ->
      exists pre e post before after c,
        fs = pre ++ e :: post /\
        proc_name e = p /\
        Py.isdigit p = true /\
        proc_fds e = inr (before ++ (fd, inr filename) :: after) /\
        Forall (passed_over filename) before /\
        proc_cmdline e = inr c /\
        re_players (command_name c) = true /\
        (forall e', In e' pre ->
                    fst (scan_proc re_players filename e') = None) /\
        (forall post',
            fst (_is_being_played re_players (pre ++ e :: post') filename)
            = (Some p, Some fd)))
  /\
  (forall pre e post before after c fd,
      fs = pre ++ e :: post ->
      (forall e', In e' pre ->
                  fst (scan_proc re_players filename e') = None) ->
      Py.isdigit (proc_name e) = true ->
      proc_fds e = inr (before ++ (fd, inr filename) :: after) ->
      Forall (passed_over filename) before ->
      proc_cmdline e = inr c ->
      re_players (command_name c) = true ->
      fst (_is_being_played re_players fs filename)
      = (Some (proc_name e), Some fd))
  /\
  fst (_is_being_played re_players fs filename)
  = as_pair (find_player re_players
               (filter (scanned re_players filename) fs) filename)
  /\
  (all_readable fs = true ->
   fst (_is_being_played re_players fs filename)
   = as_pair (find_player re_players fs filename))
  /\
  fst (_is_being_played Demo.re_mpv Demo.playing "/media/show.mkv")
  = (Some "42", Some "5").
Proof.
  unfold _is_being_played.
  split; [|split; [|split; [apply scan_procs_spec | split; [|reflexivity]]]].
  - intros p fd Hr.
    destruct (scan_procs_found _ _ _ _ _ Hr)
      as (pre & e & post & -> & Hn & He & Hpre).
    assert (Hd : Py.isdigit (proc_name e) = true).
    { unfold scan_proc in He.
      destruct (Py.isdigit (proc_name e)); [reflexivity | discriminate]. }
    unfold scan_proc in He. rewrite Hd in He. simpl in He.
    destruct (proc_fds e) as [err|fds] eqn:Hfds; [discriminate|].
    destruct (scan_fds re_players (proc_name e) (proc_cmdline e) filename fds)
      as [[err|[fd'|]] l] eqn:Hscan; simpl in He; try discriminate.
    injection He as ->.
    assert (Hfst : fst (scan_fds re_players (proc_name e) (proc_cmdline e)
                                 filename fds) = inr (Some fd))
      by now rewrite Hscan.
    destruct (scan_fds_found _ _ _ _ _ _ Hfst)
      as (c & before & after & Hc & Hre & -> & Hb).
    exists pre, e, post, before, after, c. subst p.
    repeat split; auto.
    intros post'. apply scan_procs_first; [exact Hpre|].
    unfold scan_proc. rewrite Hd, Hfds, Hscan. reflexivity.
  - intros pre e post before after c fd -> Hpre Hd Hfds Hb Hc Hre.
    apply scan_procs_first; [exact Hpre|].
    unfold scan_proc. rewrite Hd, Hfds, Hc. simpl.
    now rewrite scan_fds_first.
  - apply scan_procs_refines.
Qed.

Lemma C4_witness :
  all_readable Demo.busy = true /\
  fst (_is_being_played Demo.re_mpv Demo.busy "/media/show.mkv")
  = (Some "42", Some "5").
Proof.
  split; [reflexivity|].
  exact (eq_trans
           (proj1 (proj2 (proj2
              (proj2 (C4_first_match_is_returned Demo.re_mpv Demo.busy
                 "/media/show.mkv")))) eq_refl)
           eq_refl).
Defined.

(** C10.  A process that holds the file open but whose command name the
    player pattern does not match neither ends the scan nor decides its
    answer: that process yields no pair, after each of its matching
    descriptors the two debug messages are logged and the loop goes on
    with the descriptors that remain, the answer is the one the table
    gives without that process, and a player further down the table is
    returned. *)
Theorem C10_other_holder_does_not_end_scan (re_players : list byte -> bool)
    (filename : string) (e : ProcEntry) (fds : list FdEntry)
    (c : list byte) (fd : string) :
  Py.isdigit (proc_name e) = true ->
  proc_fds e = inr fds ->
  In (fd, inr filename) fds ->
  proc_cmdline e = inr c ->
  re_players (command_name c) = false ->
  fst (scan_proc re_players filename e) = None
  /\
  (forall after,
      scan_fds re_players (proc_name e) (proc_cmdline e) filename
               ((fd, inr filename) :: after)
      = (fst (scan_fds re_players (proc_name e) (proc_cmdline e)
                       filename after),
         PlayingProcess (proc_name e) (command_name c) c
           :: NotReadByPlayer (command_name c)
           :: snd (scan_fds re_players (proc_name e) (proc_cmdline e)
                            filename after)))
  /\
  (forall pre post,
      fst (_is_being_played re_players (pre ++ e :: post) filename)
      = fst (_is_being_played re_players (pre ++ post) filename))
  /\
  (forall pre mid q post fd',
      (forall e', In e' (pre ++ mid) ->
                  fst (scan_proc re_players filename e') = None) ->
      fst (scan_proc re_players filename q) = Some fd' ->
      fst (_is_being_played re_players (pre ++ e :: mid ++ q :: post)
                            filename)
      = (Some (proc_name q), Some fd')).
Proof.
  intros Hd Hfds Hin Hc Hre.
  assert (He : fst (scan_proc re_players filename e) = None).
  { unfold scan_proc. rewrite Hd, Hfds, Hc. simpl.
    pose proof (scan_fds_no_match re_players filename (proc_name e) c fds Hre)
      as Hno.
    destruct (scan_fds re_players (proc_name e) (inr c) filename fds)
      as [[err|[fd'|]] l]; simpl in *; try reflexivity.
    now elim (Hno fd'). }
  unfold _is_being_played. repeat split.
  - exact He.
  - intros after. rewrite Hc. now apply scan_fds_other_holder.
  - intros pre post. now apply scan_procs_drop.
  - intros pre mid q post fd' Hnone Hq.
    replace (pre ++ e :: mid ++ q :: post)
      with ((pre ++ e :: mid) ++ q :: post)
      by now rewrite <- app_assoc.
    apply scan_procs_first; [|exact Hq].
    intros e' Hin'. apply in_app_or in Hin' as [Hp | [<- | Hm]].
    + apply Hnone, in_or_app. now left.
    + exact He.
    + apply Hnone, in_or_app. now right.
Qed.

Lemma C10_witness :
  fst (_is_being_played Demo.re_mpv Demo.busy "/media/show.mkv")
  = (Some "42", Some "5").
Proof.
  refine (proj2 (proj2 (proj2
            (C10_other_holder_does_not_end_scan Demo.re_mpv "/media/show.mkv"
               (mkProc "13"
                  (inr [("0", inr "/dev/null"); ("3", inr "/media/show.mkv");
                        ("4", inr "/media/show.mkv")])
                  (inr (list_byte_of_string "/bin/sh" ++ [x00]
                        ++ list_byte_of_string "mpv")))
               [("0", inr "/dev/null"); ("3", inr "/media/show.mkv");
                ("4", inr "/media/show.mkv")]
               (list_byte_of_string "/bin/sh" ++ [x00]
                ++ list_byte_of_string "mpv")
               "3" _ _ _ _ _)))
            [mkProc "cpuinfo" (inl FileNotFoundError) (inl FileNotFoundError)]
            []
            (mkProc "42"
               (inr [("0", inr "/dev/null"); ("5", inr "/media/show.mkv")])
               (inr Demo.mpv_cmdline))
            [] "5" _ _).
  - reflexivity.
  - reflexivity.
  - simpl. right. left. reflexivity.
  - reflexivity.
  - reflexivity.
  - intros e' [<- | []]. reflexivity.
  - reflexivity.
Defined.

(** The claim C6 as it stands does not hold: process 7 cannot be
    inspected, and the log of the scan has no message naming it. *)
Lemma C6_counterexample :
  ~ failures_logged Demo.re_mpv Demo.guarded "/media/show.mkv".
Proof.
  intros H.
  specialize (H (mkProc "7" (inl PermissionError) (inl PermissionError))
                PermissionError (or_introl eq_refl) eq_refl).
  vm_compute in H. discriminate H.
Qed.

(** Where the loop over the descriptors fails, and what it has logged
    by then. *)
Lemma scan_fds_failure (re_players : list byte -> bool) (filename p : string)
    (cmdline : OSError + list byte) (fds : list FdEntry) (err : OSError)
    (l : list ScanMsg) :
  scan_fds re_players p cmdline filename fds = (inl err, l) ->
  exists read n link after,
    fds = read ++ (n, link) :: after /\
    Forall (fun d : FdEntry => exists f, snd d = inr f) read /\
    (link = inl err \/ (link = inr filename /\ cmdline = inl err)) /\
    scan_fds re_players p cmdline filename read = (inr None, l) /\
    l = holder_msgs p cmdline filename read.
Proof.
  revert l. induction fds as [|[n link] fds IH]; intros l; simpl.
  - discriminate.
  - destruct link as [e|f].
    + intros [= <- <-]. exists [], n, (inl e), fds.
      repeat split; auto. now destruct cmdline.
    + destruct (String.eqb_spec f filename) as [->|Hne].
      * destruct cmdline as [e|c].
        { intros [= <- <-]. exists [], n, (inr filename), fds.
          repeat split; auto. }
        destruct (re_players (fst (fst (Py.partition x00 c)))) eqn:Hre;
          [discriminate|].
        destruct (scan_fds re_players p (inr c) filename fds) as [r l'] eqn:E.
        intros [= -> <-].
        destruct (IH l' eq_refl)
          as (read & n' & link & after & -> & Hread & Hfail & Hscan & Hlog).
        exists ((n, inr filename) :: read), n', link, after.
        repeat split; auto.
        -- constructor; [now exists filename | exact Hread].
        -- simpl. rewrite String.eqb_refl, Hre, Hscan. reflexivity.
        -- simpl. unfold holds at 1. simpl. rewrite String.eqb_refl.
           simpl. unfold command_name at 1 2. now rewrite Hlog.
      * intros Hrun.
        destruct (IH l Hrun)
          as (read & n' & link & after & -> & Hread & Hfail & Hscan & Hlog).
        exists ((n, inr f) :: read), n', link, after.
        repeat split; auto.
        -- constructor; [now exists f | exact Hread].
        -- simpl. destruct (String.eqb_spec f filename); [contradiction|].
           exact Hscan.
        -- rewrite Hlog. unfold holder_msgs. destruct cmdline; [reflexivity|].
           simpl. unfold holds at 2. simpl.
           destruct (String.eqb_spec f filename); [contradiction|].
           reflexivity.
Qed.

(** Two processes that yield nothing and log the same can stand for
    each other. *)
Lemma scan_procs_replace (re_players : list byte -> bool) (filename : string)
    (pre : ProcFS) (e e' : ProcEntry) (post : ProcFS) (l : list ScanMsg) :
  scan_proc re_players filename e = (None, l) ->
  scan_proc re_players filename e' = (None, l) ->
  scan_procs re_players filename (pre ++ e :: post)
  = scan_procs re_players filename (pre ++ e' :: post).
Proof.
  intros He He'. induction pre as [|a pre IH]; simpl.
  - now rewrite He, He'.
  - now rewrite IH.
Qed.

(** The failing access of a skipped process, and the scan up to it. *)
Lemma caught_cut (re_players : list byte -> bool) (filename : string)
    (e : ProcEntry) (err : OSError) :
  caught re_players filename e = Some err ->
  exists read,
    (proc_fds e = inl err /\ read = []
     \/
     exists n link after,
       proc_fds e = inr (read ++ (n, link) :: after) /\
       (link = inl err \/ (link = inr filename /\ proc_cmdline e = inl err))) /\
    Forall (fun d : FdEntry => exists f, snd d = inr f) read /\
    scan_proc re_players filename e
    = (None, holder_msgs (proc_name e) (proc_cmdline e) filename read) /\
    scan_proc re_players filename (cut e read)
    = (None, holder_msgs (proc_name e) (proc_cmdline e) filename read).
Proof.
  unfold caught, scan_proc, cut. simpl.
  destruct (Py.isdigit (proc_name e)); simpl; [|discriminate].
  destruct (proc_fds e) as [err'|fds].
  - intros [= ->]. exists []. repeat split; auto.
    + now destruct (proc_cmdline e).
    + now destruct (proc_cmdline e).
  - destruct (scan_fds re_players (proc_name e) (proc_cmdline e) filename fds)
      as [[err'|r] l] eqn:Hscan; simpl; [|discriminate].
    intros [= ->].
    destruct (scan_fds_failure _ _ _ _ _ _ _ Hscan)
      as (read & n & link & after & -> & Hread & Hfail & Hcut & ->).
    exists read. repeat split; auto.
    + right. now exists n, link, after.
    + now rewrite Hcut.
Qed.

(** C6, amended.  An access failure while a process is scanned (its
    descriptors cannot be listed, a descriptor cannot be resolved, the
    command line cannot be read) makes the scan skip that process and
    nothing more: the process yields no pair, the answer is the one the
    table gives without it, and no error leaves the function, which
    returns a pair on every table.  Nothing is logged for the failure:
    the log of that process is exactly the two debug messages for each
    holder among the descriptors read before the failing access, the
    answer and the log of the whole scan are those of the table in
    which the process lists only these descriptors, and a process whose
    descriptors cannot be listed leaves the log as if it were not in
    the table.  When no process of the table yields a pair the answer
    is (None, None), logged as the last message. *)
Theorem C6_failure_skips_the_process (re_players : list byte -> bool)
    (filename : string) (fs : ProcFS) :
  (forall pre e post err,
      fs = pre ++ e :: post ->
      caught re_players filename e = Some err ->
      fst (scan_proc re_players filename e) = None /\
      fst (_is_being_played re_players fs filename)
      = fst (_is_being_played re_players (pre ++ post) filename) /\
      (exists read,
          (proc_fds e = inl err /\ read = []
           \/
           exists n link after,
             proc_fds e = inr (read ++ (n, link) :: after) /\
             (link = inl err \/
              (link = inr filename /\ proc_cmdline e = inl err))) /\
          Forall (fun d : FdEntry => exists f, snd d = inr f) read /\
          snd (scan_proc re_players filename e)
          = holder_msgs (proc_name e) (proc_cmdline e) filename read /\
          _is_being_played re_players fs filename
          = _is_being_played re_players (pre ++ cut e read :: post)
                             filename) /\
      forallb holder_msg (snd (scan_proc re_players filename e)) = true /\
      (proc_fds e = inl err ->
       snd (_is_being_played re_players fs filename)
       = snd (_is_being_played re_players (pre ++ post) filename)))
  /\
  ((forall e, In e fs -> fst (scan_proc re_players filename e) = None) ->
   fst (_is_being_played re_players fs filename) = (None, None) /\
   exists l,
     snd (_is_being_played re_players fs filename)
     = l ++ [CouldntFindPlayingProcess]).
Proof.
  unfold _is_being_played. split.
  - intros pre e post err -> Hc.
    pose proof (caught_skips _ _ _ _ Hc) as He.
    split; [exact He|]. split; [now apply scan_procs_drop|].
    split; [|split].
    + destruct (caught_cut _ _ _ _ Hc)
        as (read & Hwhere & Hread & Hlog & Hcut).
      exists read. repeat split; auto.
      * now rewrite Hlog.
      * now apply (scan_procs_replace _ _ _ _ _ _ _ Hlog Hcut).
    + apply scan_proc_holder_msgs.
    + intros Hfds. apply scan_procs_drop_log.
      unfold scan_proc. rewrite Hfds.
      now destruct (negb (Py.isdigit (proc_name e))).
  - intros Hall. pose proof (scan_procs_none _ _ _ Hall) as Hn.
    split; [exact Hn | now apply scan_procs_last_msg].
Qed.

Lemma C6_witness :
  (_is_being_played Demo.re_mpv Demo.guarded "/media/show.mkv"
   = _is_being_played Demo.re_mpv Demo.playing "/media/show.mkv")
  /\
  exists read,
    snd (scan_proc Demo.re_mpv "/media/show.mkv" Demo.closing_shell)
    = holder_msgs "13" (inr (list_byte_of_string "/bin/sh"))
                  "/media/show.mkv" read /\
    _is_being_played Demo.re_mpv Demo.fading "/media/show.mkv"
    = _is_being_played Demo.re_mpv
        [cut Demo.closing_shell read;
         mkProc "42" (inr [("5", inr "/media/show.mkv")])
                (inr Demo.mpv_cmdline)]
        "/media/show.mkv".
Proof.
  split.
  - destruct (proj1 (C6_failure_skips_the_process Demo.re_mpv
                       "/media/show.mkv" Demo.guarded)
                    [] (mkProc "7" (inl PermissionError)
                               (inl PermissionError))
                    Demo.playing PermissionError eq_refl eq_refl)
      as (_ & Hres & _ & _ & Hlog).
    specialize (Hlog eq_refl).
    exact (eq_trans (surjective_pairing _)
             (eq_trans (f_equal2 pair Hres Hlog)
                       (eq_sym (surjective_pairing _)))).
  - destruct (proj1 (C6_failure_skips_the_process Demo.re_mpv
                       "/media/show.mkv" Demo.fading)
                    [] Demo.closing_shell
                    [mkProc "42" (inr [("5", inr "/media/show.mkv")])
                            (inr Demo.mpv_cmdline)]
                    FileNotFoundError eq_refl eq_refl)
      as (_ & _ & (read & _ & _ & Hlog & Hscan) & _).
    exists read. split; [exact Hlog | exact Hscan].
Defined.

(** ** The handle closure checker *)

Lemma no_slash_split (p p' r r' : string) :
  no_slash p = true ->
  no_slash p' = true ->
  (p ++ String "/" r)%string = (p' ++ String "/" r')%string ->
  p = p' /\ r = r'.
Proof.
  revert p'. induction p as [|a p IH]; intros [|a' p'] Hp Hp' E; simpl in *.
  - now injection E.
  - injection E as <- _. now rewrite Ascii.eqb_refl in Hp'.
  - injection E as -> _. now rewrite Ascii.eqb_refl in Hp.
  - injection E as <- E.
    apply andb_true_iff in Hp as [_ Hp]. apply andb_true_iff in Hp' as [_ Hp'].
    destruct (IH p' Hp Hp' E) as [-> ->]. now split.
Qed.

(** Two processes, or two descriptors of one, never share a path. *)
Lemma proc_fd_path_inj (p n p' n' : string) :
  no_slash p = true ->
  no_slash p' = true ->
  proc_fd_path p n = proc_fd_path p' n' ->
  p = p' /\ n = n'.
Proof.
  intros Hp Hp' E. unfold proc_fd_path in E. simpl in E.
  injection E as E.
  destruct (no_slash_split p p' _ _ Hp Hp' E) as [-> E'].
  now injection E' as ->.
Qed.

Lemma os_path_islink_true (fs : ProcFS) (d : string) :
  os_path_islink fs d = true <->
  exists e fds n target,
    In e fs /\ proc_fds e = inr fds /\ In (n, target) fds /\
    d = proc_fd_path (proc_name e) n.
Proof.
  unfold os_path_islink. rewrite existsb_exists. split.
  - intros (x & Hin & Heq). apply String.eqb_eq in Heq. subst x.
    apply in_flat_map in Hin as (e & He & Hd). unfold fd_links in Hd.
    destruct (proc_fds e) as [err|fds] eqn:Hfds; [contradiction|].
    apply in_map_iff in Hd as ([n target] & <- & Hn).
    now exists e, fds, n, target.
  - intros (e & fds & n & target & He & Hfds & Hn & ->).
    exists (proc_fd_path (proc_name e) n). split; [|apply String.eqb_refl].
    apply in_flat_map. exists e. split; [exact He|].
    unfold fd_links. rewrite Hfds.
    apply in_map_iff. now exists (n, target).
Qed.

(** The checker asks for the link under the names that [%s] gives
    its two arguments. *)
Lemma closed_handle_spec (fs : ProcFS) (pid fd : option string) (p n : string) :
  Py.str pid = p ->
  Py.str fd = n ->
  listed_names fs ->
  no_slash p = true ->
  (_closed_handle fs pid fd = false <-> link_exists fs p n).
Proof.
  intros Hp Hn Hnames Hslash.
  unfold _closed_handle. rewrite Hp, Hn, negb_false_iff, os_path_islink_true.
  unfold link_exists. split.
  - intros (e & fds & n' & target & He & Hfds & Hin & Hpath).
    assert (Hname : no_slash (proc_name e) = true).
    { unfold listed_names in Hnames. rewrite Forall_forall in Hnames.
      now apply Hnames. }
    destruct (proc_fd_path_inj _ _ _ _ Hslash Hname Hpath) as [-> ->].
    now exists e, fds, target.
  - intros (e & fds & target & He & Hname & Hfds & Hin).
    exists e, fds, n, target. rewrite Hname. now repeat split.
Qed.

(** C7.  For every process id and descriptor name, as [os.listdir]
    gives them (no separator inside), the handle closure checker
    answers true exactly when the snapshot has no link
    /proc/<pid>/fd/<fd>, and false exactly when it has one.  So it
    answers true when no process of that name is left and when the
    process does not list that descriptor, and false whenever the
    process lists the descriptor, whatever the descriptor points to.
    With the parts of the empty slot it asks for /proc/None/fd/None.
    It is a total function to [bool]: nothing is raised, and a missing
    process is reported as closed. *)
Theorem C7_closed_iff_link_absent (fs : ProcFS) (p n : string) :
  listed_names fs ->
  no_slash p = true ->
  no_slash n = true ->
  (_closed_handle fs (Some p) (Some n) = true <-> ~ link_exists fs p n)
  /\
  (_closed_handle fs (Some p) (Some n) = false <-> link_exists fs p n)
  /\
  ((forall e, In e fs -> proc_name e <> p) ->
   _closed_handle fs (Some p) (Some n) = true)
  /\
  ((forall e fds target,
       In e fs -> proc_name e = p -> proc_fds e = inr fds ->
       ~ In (n, target) fds) ->
   _closed_handle fs (Some p) (Some n) = true)
  /\
  (forall e fds target,
      In e fs -> proc_name e = p -> proc_fds e = inr fds ->
      In (n, target) fds ->
      _closed_handle fs (Some p) (Some n) = false)
  /\
  (_closed_handle fs None None = false <-> link_exists fs "None" "None").
Proof.
  intros Hnames Hp Hn.
  pose proof (closed_handle_spec fs (Some p) (Some n) p n eq_refl eq_refl
                Hnames Hp) as Hopen.
  assert (Hclosed : _closed_handle fs (Some p) (Some n) = true
                    <-> ~ link_exists fs p n).
  { rewrite <- Hopen. destruct (_closed_handle fs (Some p) (Some n));
      split; congruence. }
  split; [exact Hclosed|]. split; [exact Hopen|].
  split; [|split; [|split]].
  - intros Hgone. apply Hclosed.
    intros (e & fds & target & He & Hname & _). now apply (Hgone e).
  - intros Hnever. apply Hclosed.
    intros (e & fds & target & He & Hname & Hfds & Hin).
    now apply (Hnever e fds target).
  - intros e fds target He Hname Hfds Hin. apply Hopen.
    now exists e, fds, target.
  - now apply closed_handle_spec.
Qed.

Lemma C7_witness :
  _closed_handle Demo.playing (Some "42") (Some "5") = false /\
  _closed_handle Demo.quiet (Some "42") (Some "5") = true /\
  _closed_handle Demo.playing (Some "42") (Some "7") = true.
Proof.
  split; [|split].
  - refine (proj1 (proj2 (proj2 (proj2 (proj2
              (C7_closed_iff_link_absent Demo.playing "42" "5" _ _ _)))))
              (mkProc "42" (inr [("5", inr "/media/show.mkv")])
                      (inr Demo.mpv_cmdline))
              [("5", inr "/media/show.mkv")] (inr "/media/show.mkv")
              _ _ _ _).
    + repeat constructor.
    + reflexivity.
    + reflexivity.
    + left. reflexivity.
    + reflexivity.
    + reflexivity.
    + left. reflexivity.
  - refine (proj1 (proj2 (proj2
              (C7_closed_iff_link_absent Demo.quiet "42" "5" _ _ _))) _).
    + repeat constructor.
    + reflexivity.
    + reflexivity.
    + intros e [<- | []]. discriminate.
  - refine (proj1 (proj2 (proj2 (proj2
              (C7_closed_iff_link_absent Demo.playing "42" "7" _ _ _)))) _).
    + repeat constructor.
    + reflexivity.
    + reflexivity.
    + intros e fds target [<- | []] _ [= <-] [[= ] | []].
Defined.

(** A pair the correlator returns names a link of the same snapshot:
    the checker does not report it closed. *)
Lemma returned_handle_is_open (re_players : list byte -> bool)
    (fs : ProcFS) (filename p fd : string) :
  fst (_is_being_played re_players fs filename) = (Some p, Some fd) ->
  _closed_handle fs (Some p) (Some fd) = false.
Proof.
  intros Hr. unfold _is_being_played in Hr.
  destruct (scan_procs_found _ _ _ _ _ Hr)
    as (pre & e & post & -> & <- & He & _).
  unfold scan_proc in He.
  destruct (negb (Py.isdigit (proc_name e))); [discriminate|].
  destruct (proc_fds e) as [err|fds] eqn:Hfds; [discriminate|].
  destruct (scan_fds re_players (proc_name e) (proc_cmdline e) filename fds)
    as [[err|[fd'|]] l] eqn:Hscan; simpl in He; try discriminate.
  injection He as ->.
  assert (Hfst : fst (scan_fds re_players (proc_name e) (proc_cmdline e)
                               filename fds) = inr (Some fd))
    by now rewrite Hscan.
  destruct (scan_fds_found _ _ _ _ _ _ Hfst)
    as (c & before & after & _ & _ & -> & _).
  unfold _closed_handle. apply negb_false_iff, os_path_islink_true.
  exists e, (before ++ (fd, inr filename) :: after), fd, (inr filename).
  repeat split; auto.
  - apply in_or_app. right. now left.
  - apply in_or_app. right. now left.
Qed.

(** ** The tracking state machine *)

Section TrackerFacts.

Context {B ShowTuple : Type} `{TB : TrackerBase B ShowTuple}.
Variable re_players : list byte -> bool.

Local Abbreviation world := (World B ShowTuple).

Lemma isdigit_truthy (p : string) :
  Py.isdigit p = true -> Py.truthy (Some p) = true.
Proof. now destruct p. Qed.

Lemma self_is_being_played_run (filename : string) (w : world) :
  self_is_being_played re_players filename w
  = (Ret (fst (_is_being_played re_players (procfs w) filename)),
     mkWorld (open_file w) (base w) (procfs w)
       (trace w ++ ListProc
          :: map (fun m => Debug (Scan m))
                 (snd (_is_being_played re_players (procfs w) filename)))).
Proof.
  unfold self_is_being_played, bind, get_procfs, effect, effects, ret. simpl.
  destruct (_is_being_played re_players (procfs w) filename) as [r l]. simpl.
  now rewrite <- app_assoc.
Qed.

Lemma self_emit_signal_run (signal path name : string) (w : world) :
  self_emit_signal signal path name w
  = (fst (_emit_signal signal path name (base w)),
     mkWorld (open_file w) (snd (_emit_signal signal path name (base w)))
             (procfs w) (trace w ++ [EmitSignal signal path name])).
Proof.
  unfold self_emit_signal, bind, effect, effects, call. simpl.
  now destruct (_emit_signal signal path name (base w)) as [[[]|e] b].
Qed.

Lemma self_get_playing_show_run (filename : option string) (w : world) :
  self_get_playing_show filename w
  = (fst (_get_playing_show filename (base w)),
     mkWorld (open_file w) (snd (_get_playing_show filename (base w)))
             (procfs w) (trace w ++ [GetPlayingShow filename])).
Proof.
  unfold self_get_playing_show, bind, effect, effects, call. simpl.
  now destruct (_get_playing_show filename (base w)) as [[s|e] b].
Qed.

Lemma self_update_show_if_needed_run (state : Z) (show_tuple : ShowTuple)
    (w : world) :
  self_update_show_if_needed state show_tuple w
  = (fst (update_show_if_needed state show_tuple (base w)),
     mkWorld (open_file w)
             (snd (update_show_if_needed state show_tuple (base w)))
             (procfs w) (trace w ++ [UpdateShowIfNeeded state show_tuple])).
Proof.
  unfold self_update_show_if_needed, bind, effect, effects, call. simpl.
  now destruct (update_show_if_needed state show_tuple (base w))
    as [[[]|e] b].
Qed.

(** *** Open candidates *)

Lemma proc_open_tracking (path name : string) (w : world) :
  Py.truthy (fst (fst (open_file w))) = true ->
  _proc_open re_players path name w
  = (Ret tt,
     mkWorld (open_file w) (base w) (procfs w)
       (trace w ++ [Debug (GotOpenEvent path name); Debug AlreadyTracked])).
Proof.
  intros Ht. unfold _proc_open, bind, debug, effect, effects, get_open_file.
  simpl. rewrite Ht. simpl. now rewrite <- app_assoc.
Qed.

Lemma proc_open_not_found (path name : string) (w : world) :
  Py.truthy (fst (fst (open_file w))) = false ->
  fst (_is_being_played re_players (procfs w) (Py.os_path_join path name))
  = (None, None) ->
  _proc_open re_players path name w
  = (Ret tt,
     mkWorld (open_file w) (base w) (procfs w)
       (trace w
        ++ [Debug (GotOpenEvent path name); ListProc]
        ++ map (fun m => Debug (Scan m))
               (snd (_is_being_played re_players (procfs w)
                       (Py.os_path_join path name)))
        ++ [Debug NotPlayedByPlayer])).
Proof.
  intros Ht Hr.
  unfold _proc_open, bind at 1 2, debug at 1, effect, effects, get_open_file.
  simpl. rewrite Ht. unfold bind. rewrite self_is_being_played_run. simpl.
  rewrite Hr. simpl. unfold debug, effect, effects. simpl.
  now rewrite <- !app_assoc.
Qed.

(** What an open candidate can do to the slot: nothing, or fill it when
    it was empty. *)
Lemma proc_open_slot (path name : string) (w : world) :
  open_file (snd (_proc_open re_players path name w)) = open_file w \/
  (Py.truthy (fst (fst (open_file w))) = false /\
   exists pathname pid fd,
     open_file (snd (_proc_open re_players path name w))
     = (Some pathname, Some pid, Some fd)).
Proof.
  destruct (Py.truthy (fst (fst (open_file w)))) eqn:Ht.
  { left. now rewrite proc_open_tracking. }
  destruct (scan_procs_shape re_players (Py.os_path_join path name) (procfs w))
    as [Hr | (p & fd & Hr & Hd)].
  { left. now rewrite proc_open_not_found. }
  remember (_proc_open re_players path name w) as r eqn:Er.
  unfold _proc_open, bind at 1 2, debug at 1, effect, effects, get_open_file
    in Er.
  simpl in Er. rewrite Ht in Er. unfold bind at 1 in Er.
  rewrite self_is_being_played_run in Er.
  cbn [procfs open_file base trace] in Er.
  unfold _is_being_played in Er. rewrite Hr, (isdigit_truthy p Hd) in Er.
  unfold bind at 1 in Er. rewrite self_emit_signal_run in Er. simpl in Er.
  destruct (_emit_signal "detected" path name (base w)) as [[[]|e] b1];
    simpl in Er; [|left; now subst r].
  unfold bind at 1, set_open_file in Er. simpl in Er.
  unfold bind at 1 in Er. rewrite self_get_playing_show_run in Er.
  simpl in Er. right. split; [reflexivity|].
  exists (Py.os_path_join path name), p, fd.
  destruct (_get_playing_show (Some name) b1) as [[[state show]|e] b2];
    simpl in Er.
  - unfold bind, debug, effect, effects in Er. simpl in Er.
    rewrite self_update_show_if_needed_run in Er. now subst r.
  - now subst r.
Qed.

(** *** Close candidates *)

Lemma option_string_eqb_eq (a b : option string) :
  option_string_eqb a b = true <-> a = b.
Proof.
  destruct a as [x|], b as [y|]; simpl; try (split; congruence).
  rewrite String.eqb_eq. split; congruence.
Qed.

Lemma proc_close_other_file (path name : string) (w : world) :
  fst (fst (open_file w)) <> Some (Py.os_path_join path name) ->
  _proc_close path name w
  = (Ret tt,
     mkWorld (open_file w) (base w) (procfs w)
       (trace w ++ [Debug (GotCloseEvent path name); Sleep100ms;
                    Debug DifferentFileClosed])).
Proof.
  intros Hne. unfold _proc_close, bind, debug, effect, effects, get_open_file.
  simpl. destruct (open_file w) as [[open_pathname pid] fd] eqn:Hof. simpl in *.
  destruct open_pathname as [y|];
    [destruct (String.eqb_spec (Py.os_path_join path name) y) as [E|];
     [congruence|] |];
    simpl; now rewrite <- !app_assoc.
Qed.

Lemma proc_close_still_open (path name : string) (w : world) :
  fst (fst (open_file w)) = Some (Py.os_path_join path name) ->
  _closed_handle (procfs w) (snd (fst (open_file w))) (snd (open_file w))
  = false ->
  _proc_close path name w
  = (Ret tt,
     mkWorld (open_file w) (base w) (procfs w)
       (trace w ++ [Debug (GotCloseEvent path name); Sleep100ms;
                    IsLink (proc_fd_path
                              (Py.str (snd (fst (open_file w))))
                              (Py.str (snd (open_file w))));
                    Debug PidHasntClosed])).
Proof.
  intros Heq Hopen.
  unfold _proc_close, bind, debug, effect, effects, get_open_file,
    self_closed_handle, get_procfs, ret.
  simpl. destruct (open_file w) as [[open_pathname pid] fd] eqn:Hof.
  simpl in *. subst open_pathname. rewrite String.eqb_refl. simpl.
  rewrite Hopen. simpl. now rewrite <- !app_assoc.
Qed.

Lemma proc_close_closed (path name : string) (w : world) :
  fst (fst (open_file w)) = Some (Py.os_path_join path name) ->
  _closed_handle (procfs w) (snd (fst (open_file w))) (snd (open_file w))
  = true ->
  forall (b1 b2 : B) (state : Z) (show_tuple : ShowTuple),
    _emit_signal "detected" path name (base w) = (Ret tt, b1) ->
    _get_playing_show None b1 = (Ret (state, show_tuple), b2) ->
    _proc_close path name w
    = (fst (update_show_if_needed state show_tuple b2),
       mkWorld no_open_file
         (snd (update_show_if_needed state show_tuple b2)) (procfs w)
         (trace w ++ [Debug (GotCloseEvent path name); Sleep100ms;
                      IsLink (proc_fd_path
                                (Py.str (snd (fst (open_file w))))
                                (Py.str (snd (open_file w))));
                      EmitSignal "detected" path name;
                      GetPlayingShow None;
                      UpdateShowIfNeeded state show_tuple])).
Proof.
  intros Heq Hclosed b1 b2 state show_tuple Hemit Hshow.
  unfold _proc_close, bind at 1 2 3, debug at 1, effect at 1 2, effects,
    get_open_file.
  simpl. destruct (open_file w) as [[open_pathname pid] fd] eqn:Hof.
  simpl in *. subst open_pathname. rewrite String.eqb_refl. simpl.
  unfold bind at 1, self_closed_handle, bind, get_procfs, effect, effects, ret.
  simpl. rewrite Hclosed. simpl.
  rewrite self_emit_signal_run. simpl. rewrite Hemit. simpl.
  unfold set_open_file. simpl.
  rewrite self_get_playing_show_run. simpl. rewrite Hshow. simpl.
  rewrite self_update_show_if_needed_run. simpl.
  now rewrite <- !app_assoc.
Qed.

(** What a close candidate can do to the slot: nothing, or empty it. *)
Lemma proc_close_slot (path name : string) (w : world) :
  open_file (snd (_proc_close path name w)) = open_file w \/
  open_file (snd (_proc_close path name w)) = no_open_file.
Proof.
  destruct (option_string_eqb (Some (Py.os_path_join path name))
                              (fst (fst (open_file w)))) eqn:Heq.
  2:{ left. rewrite proc_close_other_file; [reflexivity|].
      intros E. symmetry in E. apply option_string_eqb_eq in E. congruence. }
  apply option_string_eqb_eq in Heq. symmetry in Heq.
  destruct (_closed_handle (procfs w) (snd (fst (open_file w)))
                           (snd (open_file w))) eqn:Hc.
  2:{ left. now rewrite proc_close_still_open. }
  destruct (_emit_signal "detected" path name (base w)) as [[[]|e] b1] eqn:He.
  - destruct (_get_playing_show None b1) as [[[state show]|e] b2] eqn:Hs.
    + right. now rewrite (proc_close_closed _ _ _ Heq Hc _ _ _ _ He Hs).
    + right. remember (_proc_close path name w) as r eqn:Er.
      unfold _proc_close, bind at 1 2 3, debug at 1, effect at 1 2, effects,
        get_open_file in Er.
      simpl in Er. destruct (open_file w) as [[open_pathname pid] fd] eqn:Hof.
      simpl in *. subst open_pathname. rewrite String.eqb_refl in Er.
      simpl in Er.
      unfold bind at 1, self_closed_handle, bind, get_procfs, effect, effects,
        ret in Er.
      simpl in Er. rewrite Hc in Er. simpl in Er.
      rewrite self_emit_signal_run in Er. simpl in Er. rewrite He in Er.
      simpl in Er. unfold set_open_file in Er. simpl in Er.
      rewrite self_get_playing_show_run in Er. simpl in Er.
      rewrite Hs in Er. now subst r.
  - left. remember (_proc_close path name w) as r eqn:Er.
    unfold _proc_close, bind at 1 2 3, debug at 1, effect at 1 2, effects,
      get_open_file in Er.
    simpl in Er. destruct (open_file w) as [[open_pathname pid] fd] eqn:Hof.
    simpl in *. subst open_pathname. rewrite String.eqb_refl in Er.
    simpl in Er.
    unfold bind at 1, self_closed_handle, bind, get_procfs, effect, effects,
      ret in Er.
    simpl in Er. rewrite Hc in Er. simpl in Er.
    rewrite self_emit_signal_run in Er. simpl in Er. rewrite He in Er.
    now subst r.
Qed.

(** *** The event handler *)

Lemma EventHandler_dir (event : Event) (w : world) :
  is_dir event = true ->
  EventHandler re_players event w = (Ret tt, w).
Proof.
  intros Hdir.
  unfold EventHandler, process_IN_OPEN, process_IN_CLOSE_NOWRITE,
    process_IN_CLOSE_WRITE, process_IN_CREATE, process_IN_MOVED_TO,
    process_IN_MOVED_FROM, process_IN_DELETE.
  rewrite Hdir. simpl.
  repeat match goal with
         | |- context [if ?c then _ else _] => destruct c
         end; reflexivity.
Qed.

Lemma EventHandler_slot (event : Event) (w : world) :
  open_file (snd (EventHandler re_players event w)) = open_file w \/
  open_file (snd (EventHandler re_players event w)) = no_open_file \/
  (Py.truthy (fst (fst (open_file w))) = false /\
   exists pathname pid fd,
     open_file (snd (EventHandler re_players event w))
     = (Some pathname, Some pid, Some fd)).
Proof.
  destruct (is_dir event) eqn:Hdir.
  { left. now rewrite EventHandler_dir. }
  unfold EventHandler, process_IN_OPEN, process_IN_CLOSE_NOWRITE,
    process_IN_CLOSE_WRITE, process_IN_CREATE, process_IN_MOVED_TO,
    process_IN_MOVED_FROM, process_IN_DELETE.
  rewrite Hdir. cbn [negb].
  repeat match goal with
         | |- context [if ?c =? ?k then _ else _] => destruct (c =? k)
         end.
  - destruct (proc_open_slot (ev_path event) (ev_name event) w) as [H|H];
      [now left | now right; right].
  - destruct (proc_close_slot (ev_path event) (ev_name event) w) as [H|H];
      [now left | now right; left].
  - destruct (proc_close_slot (ev_path event) (ev_name event) w) as [H|H];
      [now left | now right; left].
  - left. now rewrite self_emit_signal_run.
  - left. now rewrite self_emit_signal_run.
  - left. now rewrite self_emit_signal_run.
  - left. now rewrite self_emit_signal_run.
  - now left.
Qed.

Lemma process_events_cons (fs : ProcFS) (event : Event)
    (rest : list (ProcFS * Event)) (w : world) :
  process_events re_players ((fs, event) :: rest) w
  = match EventHandler re_players event
            (mkWorld (open_file w) (base w) fs (trace w)) with
    | (Ret _, w') => process_events re_players rest w'
    | (Raise e, w') => (Raise e, w')
    end.
Proof. reflexivity. Qed.

(** The slot holds nothing or one whole record, whatever is
    processed. *)
Lemma process_events_slot_ok (queue : list (ProcFS * Event)) (w : world) :
  slot_ok (open_file w) ->
  slot_ok (open_file (snd (process_events re_players queue w))).
Proof.
  revert w. induction queue as [|[fs event] rest IH]; intros w Hok.
  - exact Hok.
  - rewrite process_events_cons.
    pose proof (EventHandler_slot event
                  (mkWorld (open_file w) (base w) fs (trace w))) as Hs.
    destruct (EventHandler re_players event
                (mkWorld (open_file w) (base w) fs (trace w)))
      as [[[]|e] w']; simpl in Hs.
    + apply IH. destruct Hs as [-> | [-> | (_ & p & pid & fd & ->)]].
      * exact Hok.
      * now left.
      * right. now exists p, pid, fd.
    + simpl. destruct Hs as [-> | [-> | (_ & p & pid & fd & ->)]].
      * exact Hok.
      * now left.
      * right. now exists p, pid, fd.
Qed.

(** Open events that arrive while a file is tracked only write to the
    debug log. *)
Lemma process_events_opens (queue : list (ProcFS * Event)) (w : world) :
  Py.truthy (fst (fst (open_file w))) = true ->
  Forall (fun q => event_kind (snd q) = IN_OPEN) queue ->
  exists added,
    fst (process_events re_players queue w) = Ret tt /\
    open_file (snd (process_events re_players queue w)) = open_file w /\
    base (snd (process_events re_players queue w)) = base w /\
    trace (snd (process_events re_players queue w)) = trace w ++ added /\
    forallb is_debug added = true.
Proof.
  intros Ht Hq. revert w Ht.
  induction Hq as [|[fs event] rest Hk _ IH]; intros w Ht.
  - exists []. simpl. now rewrite app_nil_r.
  - rewrite process_events_cons. simpl in Hk.
    unfold EventHandler. rewrite Hk. simpl (IN_OPEN =? IN_OPEN).
    cbv iota. unfold process_IN_OPEN.
    destruct (is_dir event); cbn [negb].
    + unfold ret.
      match goal with
      | |- context [process_events _ rest ?w1] =>
          destruct (IH w1 Ht) as (added & Hr & Ho & Hb & Htr & Hd)
      end.
      cbn [open_file base procfs trace] in *.
      exists added. repeat split; auto.
    + rewrite proc_open_tracking by exact Ht.
      cbn [open_file base procfs trace].
      match goal with
      | |- context [process_events _ rest ?w1] =>
          destruct (IH w1 Ht) as (added & Hr & Ho & Hb & Htr & Hd)
      end.
      cbn [open_file base procfs trace] in *.
      exists ([Debug (GotOpenEvent (ev_path event) (ev_name event));
               Debug AlreadyTracked] ++ added).
      repeat split; auto.
      * rewrite Htr. now rewrite <- app_assoc.
Qed.

(** C2.  The tracker has one slot for the tracked file, and whatever
    events are processed it holds nothing or one whole record.  While a
    file is tracked (the slot has a path, a non-empty string), an open
    candidate
    only writes two debug messages: the record and the inherited state
    stay as they are, /proc is not listed and no signal is emitted; no
    event puts another record in the place of the tracked one, the slot
    can only stay or be emptied; and any run of open events, one after
    the other, leaves the record and the inherited state unchanged and
    adds debug messages only. *)
Theorem C2_single_tracked_file (queue : list (ProcFS * Event)) (w : world) :
  (slot_ok (open_file w) ->
   slot_ok (open_file (snd (process_events re_players queue w))))
  /\
  (Py.truthy (fst (fst (open_file w))) = true ->
   (forall path name,
       _proc_open re_players path name w
       = (Ret tt,
          mkWorld (open_file w) (base w) (procfs w)
            (trace w ++ [Debug (GotOpenEvent path name);
                         Debug AlreadyTracked])))
   /\
   (forall event,
       open_file (snd (EventHandler re_players event w)) = open_file w \/
       open_file (snd (EventHandler re_players event w)) = no_open_file)
   /\
   (Forall (fun q => event_kind (snd q) = IN_OPEN) queue ->
    exists added,
      fst (process_events re_players queue w) = Ret tt /\
      open_file (snd (process_events re_players queue w)) = open_file w /\
      base (snd (process_events re_players queue w)) = base w /\
      trace (snd (process_events re_players queue w)) = trace w ++ added /\
      forallb is_debug added = true)).
Proof.
  split; [apply process_events_slot_ok|].
  intros Ht. repeat split.
  - intros path name. now apply proc_open_tracking.
  - intros event.
    destruct (EventHandler_slot event w) as [H | [H | (Hf & _)]];
      [now left | now right | congruence].
  - now apply process_events_opens.
Qed.

(** C5.  An open candidate that arrives while no file is tracked and
    for whose full path the process correlator finds no player leaves
    the tracker idle: the slot stays empty, the inherited state is
    untouched, and what is added to the trace is the debug log of the
    event and of the scan and the listing of /proc, with no signal in
    it. *)
Theorem C5_open_without_player_stays_idle (path name : string) (w : world) :
  open_file w = no_open_file ->
  fst (_is_being_played re_players (procfs w) (Py.os_path_join path name))
  = (None, None) ->
  exists added,
    _proc_open re_players path name w
    = (Ret tt, mkWorld no_open_file (base w) (procfs w) (trace w ++ added)) /\
    added
    = [Debug (GotOpenEvent path name); ListProc]
      ++ map (fun m => Debug (Scan m))
             (snd (_is_being_played re_players (procfs w)
                     (Py.os_path_join path name)))
      ++ [Debug NotPlayedByPlayer] /\
    forallb (fun e => negb (is_signal e)) added = true.
Proof.
  intros Hidle Hr. eexists. split; [|split; [reflexivity|]].
  - rewrite proc_open_not_found; [now rewrite Hidle | now rewrite Hidle | exact Hr].
  - rewrite !forallb_app. simpl. rewrite andb_true_r.
    apply forallb_forall. intros e Hin.
    apply in_map_iff in Hin as (m & <- & _). reflexivity.
Qed.

(** C3.  A close candidate for a path other than the tracked one, and
    any close candidate while no file is tracked, changes nothing: the
    record and the inherited state stay, no signal is emitted and no
    update is submitted.  When the paths match and the handle closure
    checker finds the descriptor still there, the record stays as it
    is.  When it finds the descriptor gone, the tracker emits
    [detected] with the path and name, empties the slot, resolves the
    show with [None] and hands the resulting pair to the update
    collaborator; the same close candidate arriving again then changes
    nothing. *)
Theorem C3_close_candidate (path name : string) (w : world) :
  let pathname := Py.os_path_join path name in
  let pid := snd (fst (open_file w)) in
  let fd := snd (open_file w) in
  let link := IsLink (proc_fd_path (Py.str pid) (Py.str fd)) in
  (fst (fst (open_file w)) <> Some pathname ->
   _proc_close path name w
   = (Ret tt,
      mkWorld (open_file w) (base w) (procfs w)
        (trace w ++ [Debug (GotCloseEvent path name); Sleep100ms;
                     Debug DifferentFileClosed])))
  /\
  (open_file w = no_open_file ->
   _proc_close path name w
   = (Ret tt,
      mkWorld no_open_file (base w) (procfs w)
        (trace w ++ [Debug (GotCloseEvent path name); Sleep100ms;
                     Debug DifferentFileClosed])))
  /\
  (fst (fst (open_file w)) = Some pathname ->
   _closed_handle (procfs w) pid fd = false ->
   _proc_close path name w
   = (Ret tt,
      mkWorld (open_file w) (base w) (procfs w)
        (trace w ++ [Debug (GotCloseEvent path name); Sleep100ms; link;
                     Debug PidHasntClosed])))
  /\
  (fst (fst (open_file w)) = Some pathname ->
   _closed_handle (procfs w) pid fd = true ->
   forall (b1 b2 : B) (state : Z) (show_tuple : ShowTuple),
     _emit_signal "detected" path name (base w) = (Ret tt, b1) ->
     _get_playing_show None b1 = (Ret (state, show_tuple), b2) ->
     let w' :=
       mkWorld no_open_file
         (snd (update_show_if_needed state show_tuple b2)) (procfs w)
         (trace w ++ [Debug (GotCloseEvent path name); Sleep100ms; link;
                      EmitSignal "detected" path name;
                      GetPlayingShow None;
                      UpdateShowIfNeeded state show_tuple]) in
     _proc_close path name w
     = (fst (update_show_if_needed state show_tuple b2), w') /\
     forall fs,
       _proc_close path name
         (mkWorld (open_file w') (base w') fs (trace w'))
       = (Ret tt,
          mkWorld no_open_file (base w') fs
            (trace w' ++ [Debug (GotCloseEvent path name); Sleep100ms;
                          Debug DifferentFileClosed]))).
Proof.
  intros pathname pid fd link. split; [|split; [|split]].
  - apply proc_close_other_file.
  - intros Hidle. rewrite proc_close_other_file; rewrite Hidle;
      [reflexivity | discriminate].
  - apply proc_close_still_open.
  - intros Heq Hc b1 b2 state show_tuple He Hs w'. split.
    + exact (proc_close_closed path name w Heq Hc b1 b2 state show_tuple
               He Hs).
    + intros fs. now rewrite proc_close_other_file.
Qed.

(** C8.  The event handler keeps no state of its own and maps every
    event by its mask: an event with the directory flag is dropped
    (same world, nothing added to the trace); without the flag, an open
    goes to the open-candidate handler, a close (written or not) to the
    one close-candidate handler, a create or a move into the tree emits
    [detected] with the path and name, and a move out of the tree or a
    delete emits [removed] with the path and name; these four emit the
    signal and leave the slot of the tracked file alone. *)
Theorem C8_event_classifier (event : Event) (w : world) :
  (is_dir event = true -> EventHandler re_players event w = (Ret tt, w))
  /\
  (ev_mask event = IN_OPEN ->
   EventHandler re_players event w
   = _proc_open re_players (ev_path event) (ev_name event) w)
  /\
  (ev_mask event = IN_CLOSE_NOWRITE \/ ev_mask event = IN_CLOSE_WRITE ->
   EventHandler re_players event w
   = _proc_close (ev_path event) (ev_name event) w)
  /\
  (ev_mask event = IN_CREATE \/ ev_mask event = IN_MOVED_TO ->
   EventHandler re_players event w
   = (fst (_emit_signal "detected" (ev_path event) (ev_name event) (base w)),
      mkWorld (open_file w)
        (snd (_emit_signal "detected" (ev_path event) (ev_name event)
                (base w)))
        (procfs w)
        (trace w ++ [EmitSignal "detected" (ev_path event)
                                (ev_name event)])))
  /\
  (ev_mask event = IN_MOVED_FROM \/ ev_mask event = IN_DELETE ->
   EventHandler re_players event w
   = (fst (_emit_signal "removed" (ev_path event) (ev_name event) (base w)),
      mkWorld (open_file w)
        (snd (_emit_signal "removed" (ev_path event) (ev_name event)
                (base w)))
        (procfs w)
        (trace w ++ [EmitSignal "removed" (ev_path event)
                                (ev_name event)]))).
Proof.
  split; [apply EventHandler_dir|].
  repeat split.
  - intros Hm.
    unfold EventHandler, event_kind, process_IN_OPEN, is_dir. now rewrite Hm.
  - intros [Hm | Hm];
      unfold EventHandler, event_kind, process_IN_CLOSE_NOWRITE,
        process_IN_CLOSE_WRITE, is_dir; now rewrite Hm.
  - intros [Hm | Hm]; rewrite <- self_emit_signal_run;
      unfold EventHandler, event_kind, process_IN_CREATE,
        process_IN_MOVED_TO, is_dir; now rewrite Hm.
  - intros [Hm | Hm]; rewrite <- self_emit_signal_run;
      unfold EventHandler, event_kind, process_IN_MOVED_FROM,
        process_IN_DELETE, is_dir; now rewrite Hm.
Qed.

(** ** The watch loop *)

Lemma extends_ret {A : Type} (a : A) : extends (ret a : @M B ShowTuple A).
Proof. intros w. exists []. simpl. now rewrite app_nil_r. Qed.

Lemma extends_raise {A : Type} (e : Exn) :
  extends (raise e : @M B ShowTuple A).
Proof. intros w. exists []. simpl. now rewrite app_nil_r. Qed.

Lemma extends_bind {A C : Type} (m : @M B ShowTuple A)
    (k : A -> @M B ShowTuple C) :
  extends m -> (forall a, extends (k a)) -> extends (bind m k).
Proof.
  intros Hm Hk w. unfold bind. destruct (Hm w) as [l1 H1].
  destruct (m w) as [[a|e] w1]; simpl in H1.
  - destruct (Hk a w1) as [l2 H2]. exists (l1 ++ l2).
    now rewrite H2, H1, app_assoc.
  - now exists l1.
Qed.

Lemma extends_effects (es : list (Effect ShowTuple)) :
  extends (effects es : @M B ShowTuple unit).
Proof. intros w. now exists es. Qed.

Lemma extends_call {A : Type} (f : B -> Result A * B) :
  extends (call f : @M B ShowTuple A).
Proof.
  intros w. exists []. unfold call. destruct (f (base w)). simpl.
  now rewrite app_nil_r.
Qed.

Lemma extends_state {A : Type} (f : world -> A) (g : world -> world) :
  (forall w, trace (g w) = trace w) ->
  extends (fun w => (Ret (f w), g w)).
Proof. intros Hg w. exists []. simpl. now rewrite Hg, app_nil_r. Qed.

Ltac extends_step :=
  first
    [ apply extends_ret
    | apply extends_raise
    | apply extends_effects
    | apply extends_call
    | apply extends_state; reflexivity
    | apply extends_bind; [| intros ? ]
    | match goal with
      | |- extends (if ?c then _ else _) => destruct c
      | |- extends (let '(_, _) := ?p in _) => destruct p
      | |- extends (match ?p with _ => _ end) => destruct p
      end ].

Lemma extends_proc_open (path name : string) :
  extends (_proc_open re_players path name).
Proof.
  unfold _proc_open, debug, effect, self_emit_signal, self_get_playing_show,
    self_update_show_if_needed, self_is_being_played, get_open_file,
    set_open_file, get_procfs.
  repeat extends_step.
Qed.

Lemma extends_proc_close (path name : string) :
  extends (_proc_close path name : @M B ShowTuple unit).
Proof.
  unfold _proc_close, debug, effect, self_emit_signal, self_get_playing_show,
    self_update_show_if_needed, self_closed_handle, get_open_file,
    set_open_file, get_procfs.
  repeat extends_step.
Qed.

Lemma extends_EventHandler (event : Event) :
  extends (EventHandler re_players event).
Proof.
  unfold EventHandler, process_IN_OPEN, process_IN_CLOSE_NOWRITE,
    process_IN_CLOSE_WRITE, process_IN_CREATE, process_IN_MOVED_TO,
    process_IN_MOVED_FROM, process_IN_DELETE.
  repeat match goal with
         | |- extends (if ?c then _ else _) => destruct c
         end;
    first [ apply extends_proc_open | apply extends_proc_close
          | apply extends_ret
          | unfold self_emit_signal, effect; repeat extends_step ].
Qed.

Lemma extends_process_events (queue : list (ProcFS * Event)) :
  extends (process_events re_players queue).
Proof.
  induction queue as [|[fs event] rest IH]; simpl.
  - apply extends_ret.
  - apply extends_bind; [apply extends_state; reflexivity | intros _].
    apply extends_bind; [apply extends_EventHandler | intros _; exact IH].
Qed.

Lemma effect_then_extends {A : Type} (e : Effect ShowTuple)
    (k : unit -> @M B ShowTuple A) (w : world) :
  (forall u, extends (k u)) ->
  exists rest, trace (snd (bind (effect e) k w)) = trace w ++ e :: rest.
Proof.
  intros Hk. unfold bind, effect, effects. cbn [fst snd].
  match goal with
  | |- context [k tt ?w1] => destruct (Hk tt w1) as [rest Hrest]
  end.
  exists rest. rewrite Hrest. cbn [trace]. now rewrite <- app_assoc.
Qed.

Lemma loop_body_waits_first (poll : Poll) (timeout : option Z) (w : world) :
  exists rest,
    trace (snd (loop_body re_players poll timeout w))
    = trace w ++ CheckEvents timeout :: rest.
Proof.
  unfold loop_body. apply effect_then_extends. intros _.
  destruct poll as [queue| |e].
  - apply extends_bind; [apply extends_effects | intros _].
    apply extends_bind; [apply extends_process_events | intros _].
    apply extends_bind; [apply extends_state; reflexivity | intros b].
    apply extends_ret.
  - destruct timeout as [t|]; [|apply extends_ret].
    apply extends_bind; [apply extends_state; reflexivity | intros b].
    apply extends_bind; [apply extends_effects | intros _].
    apply extends_bind; [|intros _; apply extends_ret].
    unfold self_update_show_if_needed, effect. repeat extends_step.
  - apply extends_raise.
Qed.

Lemma loop_body_timeout (t : Z) (w : world) :
  loop_body re_players PollTimeout (Some t) w
  = (match fst (update_show_if_needed (last_state (base w))
                  (last_show_tuple (base w)) (base w)) with
     | Ret _ => Ret (Again (Some t))
     | Raise e => Raise e
     end,
     mkWorld (open_file w)
       (snd (update_show_if_needed (last_state (base w))
               (last_show_tuple (base w)) (base w)))
       (procfs w)
       (trace w ++ [CheckEvents (Some t);
                    Debug (SendingLastState (last_state (base w))
                             (last_show_tuple (base w)));
                    UpdateShowIfNeeded (last_state (base w))
                      (last_show_tuple (base w))])).
Proof.
  unfold loop_body, bind, effect, effects, get_base, debug, effect, effects.
  simpl. rewrite self_update_show_if_needed_run. simpl.
  destruct (update_show_if_needed (last_state (base w))
              (last_show_tuple (base w)) (base w)) as [[[]|e] b]; simpl;
    now rewrite <- !app_assoc.
Qed.

Lemma loop_body_events (queue : list (ProcFS * Event)) (timeout : option Z)
    (w w' : world) (next : Next) :
  loop_body re_players (PollReady queue) timeout w = (Ret next, w') ->
  next = Again (next_timeout (base w')).
Proof.
  unfold loop_body, bind, effect, effects, get_base, ret. simpl.
  destruct (process_events re_players queue _) as [[[]|e] w1];
    [|discriminate].
  now intros [= <- <-].
Qed.

Lemma next_timeout_none (b : B) :
  next_timeout b = None <->
  last_state b = TRACKER_NOVIDEO \/ last_updated b = true.
Proof.
  unfold next_timeout. rewrite <- Z.eqb_eq, <- orb_true_iff.
  destruct (_ || _)%bool; split; congruence.
Qed.

(** C1, amended.  Every turn of the loop waits with the timeout the
    loop holds at that moment.  A wait that times out re-submits the
    last known (state, show) pair to the update collaborator and leaves
    the timeout as it was; the timeout is worked out anew only after a
    wait that delivered events, once they are all processed: indefinite
    when the last state is "no video" or the update was already sent,
    1000 ms otherwise.  The first wait is indefinite. *)
Theorem C1_timeout_set_after_events (poll : Poll) (timeout : option Z)
    (w : world) :
  (exists rest,
      trace (snd (loop_body re_players poll timeout w))
      = trace w ++ CheckEvents timeout :: rest)
  /\
  (forall t,
      poll = PollTimeout ->
      timeout = Some t ->
      loop_body re_players poll timeout w
      = (match fst (update_show_if_needed (last_state (base w))
                      (last_show_tuple (base w)) (base w)) with
         | Ret _ => Ret (Again (Some t))
         | Raise e => Raise e
         end,
         mkWorld (open_file w)
           (snd (update_show_if_needed (last_state (base w))
                   (last_show_tuple (base w)) (base w)))
           (procfs w)
           (trace w ++ [CheckEvents (Some t);
                        Debug (SendingLastState (last_state (base w))
                                 (last_show_tuple (base w)));
                        UpdateShowIfNeeded (last_state (base w))
                          (last_show_tuple (base w))])))
  /\
  (forall queue next w',
      poll = PollReady queue ->
      loop_body re_players poll timeout w = (Ret next, w') ->
      next = Again (next_timeout (base w')))
  /\
  (next_timeout (base w) = None <->
   last_state (base w) = TRACKER_NOVIDEO \/ last_updated (base w) = true)
  /\
  (next_timeout (base w) = None \/ next_timeout (base w) = Some 1000)
  /\
  (forall watch_dir interval,
      observe re_players watch_dir interval [] w
      = (Running None, observe_setup watch_dir w)).
Proof.
  split; [apply loop_body_waits_first|].
  split; [intros t -> ->; apply loop_body_timeout|].
  split; [intros queue next w' ->; apply loop_body_events|].
  split; [apply next_timeout_none|].
  split; [|reflexivity].
  unfold next_timeout. destruct (_ || _)%bool; [now left | now right].
Qed.

(** C9.  Whenever [observe] ends, with the loop finding the active flag
    false or with an exception leaving the loop, the notifier has been
    stopped: the stop is what the run does last before it returns or
    the exception goes on, after everything the loop did.  The loop
    ends at the first test that finds the flag false, and an exception
    raised by the poll or while the events are processed leaves the
    loop as it is. *)
Theorem C9_notifier_stopped_on_exit (watch_dir : string) (interval : Z)
    (script : list Tick) (w : world) :
  (forall o w',
      observe re_players watch_dir interval script w = (o, w') ->
      o = Returned \/ (exists e, o = Raised e) ->
      exists w1,
        loop re_players script None (observe_setup watch_dir w) = (o, w1) /\
        open_file w' = open_file w1 /\
        base w' = base w1 /\
        trace w' = trace w1 ++ [NotifierStop; Info TrackerHasStopped])
  /\
  (forall t rest timeout w0,
      active (tick_controller t (base w0)) = false ->
      loop re_players (t :: rest) timeout w0
      = (Returned, controller (tick_controller t) w0))
  /\
  (forall t rest timeout w0 e w2,
      active (tick_controller t (base w0)) = true ->
      loop_body re_players (tick_poll t) timeout
                (controller (tick_controller t) w0) = (Raise e, w2) ->
      loop re_players (t :: rest) timeout w0 = (Raised e, w2))
  /\
  (forall timeout w0 e,
      fst (loop_body re_players (PollError e) timeout w0) = Raise e)
  /\
  (forall queue timeout w0 e w2,
      process_events re_players queue
        (mkWorld (open_file w0) (base w0) (procfs w0)
                 (trace w0 ++ [CheckEvents timeout; ReadEvents]))
      = (Raise e, w2) ->
      loop_body re_players (PollReady queue) timeout w0 = (Raise e, w2)).
Proof.
  split; [|split; [|split; [|split]]].
  - intros o w' Hobs Hexit. unfold observe in Hobs.
    destruct (loop re_players script None (observe_setup watch_dir w))
      as [[ |e| |t] w1]; injection Hobs as <- <-.
    + now exists w1.
    + now exists w1.
    + destruct Hexit as [H | [e H]]; discriminate H.
    + destruct Hexit as [H | [e H]]; discriminate H.
  - intros t rest timeout w0 Hoff. simpl. now rewrite Hoff.
  - intros t rest timeout w0 e w2 Hon Hbody. simpl. rewrite Hon. simpl.
    now rewrite Hbody.
  - reflexivity.
  - intros queue timeout w0 e w2 Hq.
    unfold loop_body, bind, effect, effects. simpl.
    rewrite <- app_assoc. simpl. now rewrite Hq.
Qed.

End TrackerFacts.

(** ** The properties at work on the small consumer *)

Lemma C2_witness :
  open_file (snd (process_events Demo.re_mpv
                    [(Demo.playing, Demo.open_show);
                     (Demo.quiet, Demo.open_show)] Demo.tracking))
  = open_file Demo.tracking.
Proof.
  destruct (proj2 (C2_single_tracked_file Demo.re_mpv
                     [(Demo.playing, Demo.open_show);
                      (Demo.quiet, Demo.open_show)] Demo.tracking)
                  eq_refl) as (_ & _ & H).
  destruct H as (added & _ & Hslot & _).
  - repeat constructor.
  - exact Hslot.
Defined.

Lemma C3_witness :
  _proc_close "/media" "show.mkv" Demo.finished
  = (Ret tt,
     mkWorld no_open_file (Demo.mkBase true Demo.NOVIDEO None false)
       Demo.quiet
       [Debug (GotCloseEvent "/media" "show.mkv"); Sleep100ms;
        IsLink "/proc/42/fd/5"; EmitSignal "detected" "/media" "show.mkv";
        GetPlayingShow None; UpdateShowIfNeeded Demo.NOVIDEO None]).
Proof.
  refine (proj1 (proj2 (proj2 (proj2
            (C3_close_candidate "/media" "show.mkv" Demo.finished)))
            _ _ (base Demo.finished) (base Demo.finished) Demo.NOVIDEO None
            _ _)); reflexivity.
Defined.

Lemma C5_witness :
  fst (_proc_open Demo.re_mpv "/media" "show.mkv" Demo.idle) = Ret tt /\
  open_file (snd (_proc_open Demo.re_mpv "/media" "show.mkv" Demo.idle))
  = no_open_file.
Proof.
  destruct (C5_open_without_player_stays_idle Demo.re_mpv
              "/media" "show.mkv" Demo.idle eq_refl eq_refl)
    as (added & Hrun & _ & _).
  rewrite Hrun. split; reflexivity.
Defined.

Lemma C8_witness :
  EventHandler Demo.re_mpv
    (mkEvent (Z.lor IN_CREATE IN_ISDIR) "/media" "season2") Demo.tracking
  = (Ret tt, Demo.tracking).
Proof.
  exact (proj1 (C8_event_classifier Demo.re_mpv
                  (mkEvent (Z.lor IN_CREATE IN_ISDIR) "/media" "season2")
                  Demo.tracking)
               eq_refl).
Defined.

(** The claim C1 as it stands does not hold: the player opens the file,
    the first second without events sends the update, and the loop goes
    on to wait with a timeout of one second although the update has
    been sent. *)
Lemma C1_counterexample :
  ~ timeout_tracks_state Demo.re_mpv Demo.evening Demo.idle.
Proof.
  intros H.
  assert (E : exists w,
             loop Demo.re_mpv (firstn 2 Demo.evening) None Demo.idle
             = (Running (Some 1000), w) /\
             next_timeout (base w) = None).
  { eexists. split; [lazy; reflexivity | reflexivity]. }
  destruct E as (w & Hrun & Hnext).
  specialize (H 2%nat (Some 1000) w Hrun). congruence.
Qed.

Lemma C1_witness :
  fst (loop_body Demo.re_mpv PollTimeout (Some 1000) Demo.tracking)
  = Ret (Again (Some 1000)) /\
  base (snd (loop_body Demo.re_mpv PollTimeout (Some 1000) Demo.tracking))
  = Demo.mkBase true Demo.PLAYING (Some ("show.mkv", 1)) true.
Proof.
  rewrite (proj1 (proj2 (C1_timeout_set_after_events Demo.re_mpv
                           PollTimeout (Some 1000) Demo.tracking))
                 1000 eq_refl eq_refl).
  split; reflexivity.
Defined.

Lemma C9_witness :
  exists w1,
    loop Demo.re_mpv (Demo.evening ++ [Demo.stop_tick]) None
         (observe_setup "/media" Demo.idle) = (Returned, w1) /\
    trace (snd (observe Demo.re_mpv "/media" 1
                  (Demo.evening ++ [Demo.stop_tick]) Demo.idle))
    = trace w1 ++ [NotifierStop; Info TrackerHasStopped].
Proof.
  assert (Hobs : observe Demo.re_mpv "/media" 1
                   (Demo.evening ++ [Demo.stop_tick]) Demo.idle
                 = (Returned,
                    snd (observe Demo.re_mpv "/media" 1
                           (Demo.evening ++ [Demo.stop_tick]) Demo.idle)))
    by (vm_compute; reflexivity).
  destruct (proj1 (C9_notifier_stopped_on_exit Demo.re_mpv "/media" 1
                     (Demo.evening ++ [Demo.stop_tick]) Demo.idle)
                  _ _ Hobs (or_introl eq_refl))
    as (w1 & Hloop & _ & _ & Htrace).
  exists w1. split; assumption.
Defined.

(** One evening: the player opens the file and is tracked; the file is
    closed when the player has gone, and the tracker is idle again. *)
Example open_then_close :
  let '(r, w) :=
    process_events Demo.re_mpv
      [(Demo.playing, Demo.open_show); (Demo.playing, Demo.close_show);
       (Demo.quiet, Demo.close_show)]
      Demo.idle in
  r = Ret tt /\
  open_file w = no_open_file /\
  filter is_signal (trace w)
  = [EmitSignal "detected" "/media" "show.mkv";
     EmitSignal "detected" "/media" "show.mkv"] /\
  filter (fun e => match e with UpdateShowIfNeeded _ _ => true | _ => false end)
         (trace w)
  = [UpdateShowIfNeeded Demo.PLAYING (Some ("show.mkv", 1));
     UpdateShowIfNeeded Demo.NOVIDEO None].
Proof. vm_compute. repeat split. Qed.

(** * Further properties *)

(** ** The transitions in full *)

Section Transitions.

Context {B ShowTuple : Type} `{TB : TrackerBase B ShowTuple}.
Variable re_players : list byte -> bool.

Local Abbreviation world := (World B ShowTuple).

Lemma scan_result_numeric (fs : ProcFS) (filename p fd : string) :
  fst (_is_being_played re_players fs filename) = (Some p, Some fd) ->
  Py.isdigit p = true.
Proof.
  intros Hr. unfold _is_being_played in Hr.
  destruct (scan_procs_shape re_players filename fs)
    as [Hn | (p' & fd' & Hs & Hd)]; congruence.
Qed.

(** An open candidate that finds the player, whatever the
    collaborators do. *)
Lemma proc_open_found_run (path name p fd : string) (w : world) :
  Py.truthy (fst (fst (open_file w))) = false ->
  fst (_is_being_played re_players (procfs w) (Py.os_path_join path name))
  = (Some p, Some fd) ->
  let pathname := Py.os_path_join path name in
  let record := (Some pathname, Some p, Some fd) in
  let t1 :=
    trace w
    ++ [Debug (GotOpenEvent path name); ListProc]
    ++ map (fun m => Debug (Scan m))
           (snd (_is_being_played re_players (procfs w) pathname))
    ++ [EmitSignal "detected" path name] in
  _proc_open re_players path name w
  = match _emit_signal "detected" path name (base w) with
    | (Raise e, b1) => (Raise e, mkWorld (open_file w) b1 (procfs w) t1)
    | (Ret _, b1) =>
        match _get_playing_show (Some name) b1 with
        | (Raise e, b2) =>
            (Raise e,
             mkWorld record b2 (procfs w)
                     (t1 ++ [GetPlayingShow (Some name)]))
        | (Ret (state, show_tuple), b2) =>
            (fst (update_show_if_needed state show_tuple b2),
             mkWorld record
               (snd (update_show_if_needed state show_tuple b2)) (procfs w)
               (t1 ++ [GetPlayingShow (Some name);
                       Debug (GotStatus state show_tuple);
                       UpdateShowIfNeeded state show_tuple]))
        end
    end.
Proof.
  intros Ht Hr pathname record t1.
  pose proof (scan_result_numeric _ _ _ _ Hr) as Hd.
  unfold _proc_open, bind at 1 2, debug at 1, effect, effects, get_open_file.
  simpl. rewrite Ht. unfold bind at 1. rewrite self_is_being_played_run.
  cbn [procfs open_file base trace].
  rewrite Hr, (isdigit_truthy p Hd).
  unfold bind at 1. rewrite self_emit_signal_run. simpl.
  destruct (_emit_signal "detected" path name (base w)) as [[[]|e] b1];
    simpl.
  2:{ subst t1. now rewrite <- !app_assoc. }
  unfold bind at 1, set_open_file. simpl.
  unfold bind at 1. rewrite self_get_playing_show_run. simpl.
  destruct (_get_playing_show (Some name) b1) as [[[state show]|e] b2];
    simpl.
  - unfold bind, debug, effect, effects. simpl.
    rewrite self_update_show_if_needed_run. simpl.
    subst t1 record pathname. now rewrite <- !app_assoc.
  - subst t1 record pathname. now rewrite <- !app_assoc.
Qed.

(** A close candidate for the tracked file whose descriptor is gone,
    whatever the collaborators do. *)
Lemma proc_close_closed_run (path name : string) (w : world) :
  fst (fst (open_file w)) = Some (Py.os_path_join path name) ->
  _closed_handle (procfs w) (snd (fst (open_file w))) (snd (open_file w))
  = true ->
  let t1 :=
    trace w
    ++ [Debug (GotCloseEvent path name); Sleep100ms;
        IsLink (proc_fd_path (Py.str (snd (fst (open_file w))))
                             (Py.str (snd (open_file w))));
        EmitSignal "detected" path name] in
  _proc_close path name w
  = match _emit_signal "detected" path name (base w) with
    | (Raise e, b1) => (Raise e, mkWorld (open_file w) b1 (procfs w) t1)
    | (Ret _, b1) =>
        match _get_playing_show None b1 with
        | (Raise e, b2) =>
            (Raise e,
             mkWorld no_open_file b2 (procfs w) (t1 ++ [GetPlayingShow None]))
        | (Ret (state, show_tuple), b2) =>
            (fst (update_show_if_needed state show_tuple b2),
             mkWorld no_open_file
               (snd (update_show_if_needed state show_tuple b2)) (procfs w)
               (t1 ++ [GetPlayingShow None;
                       UpdateShowIfNeeded state show_tuple]))
        end
    end.
Proof.
  intros Heq Hc t1.
  unfold _proc_close, bind at 1 2 3, debug at 1, effect at 1 2, effects,
    get_open_file.
  simpl. destruct (open_file w) as [[open_pathname pid] fd] eqn:Hof.
  simpl in *. subst open_pathname. rewrite String.eqb_refl. simpl.
  unfold bind at 1, self_closed_handle, bind at 1 2, get_procfs, effect at 1,
    effects, ret.
  simpl. rewrite Hc. simpl.
  unfold bind at 1. rewrite self_emit_signal_run. simpl.
  destruct (_emit_signal "detected" path name (base w)) as [[[]|e] b1];
    simpl.
  2:{ subst t1. now rewrite <- !app_assoc. }
  unfold bind at 1, set_open_file. simpl.
  unfold bind at 1. rewrite self_get_playing_show_run. simpl.
  destruct (_get_playing_show None b1) as [[[state show]|e] b2]; simpl.
  - rewrite self_update_show_if_needed_run. simpl.
    subst t1. now rewrite <- !app_assoc.
  - subst t1. now rewrite <- !app_assoc.
Qed.

(** X1.  An open candidate that arrives while no file is tracked and
    for which the correlator returns (p, fd) emits [detected] with the
    path and name of the event, stores the record (full path, p, fd),
    resolves the show from the bare file name, logs the status and
    hands the pair to the update collaborator, in this order; the
    result of the handler is the result of the update collaborator. *)
Theorem X1_open_starts_tracking (path name p fd : string) (w : world)
    (b1 b2 : B) (state : Z) (show_tuple : ShowTuple) :
  Py.truthy (fst (fst (open_file w))) = false ->
  fst (_is_being_played re_players (procfs w) (Py.os_path_join path name))
  = (Some p, Some fd) ->
  _emit_signal "detected" path name (base w) = (Ret tt, b1) ->
  _get_playing_show (Some name) b1 = (Ret (state, show_tuple), b2) ->
  _proc_open re_players path name w
  = (fst (update_show_if_needed state show_tuple b2),
     mkWorld (Some (Py.os_path_join path name), Some p, Some fd)
       (snd (update_show_if_needed state show_tuple b2)) (procfs w)
       (trace w
        ++ [Debug (GotOpenEvent path name); ListProc]
        ++ map (fun m => Debug (Scan m))
               (snd (_is_being_played re_players (procfs w)
                       (Py.os_path_join path name)))
        ++ [EmitSignal "detected" path name;
            GetPlayingShow (Some name);
            Debug (GotStatus state show_tuple);
            UpdateShowIfNeeded state show_tuple])).
Proof.
  intros Ht Hr He Hs. rewrite (proc_open_found_run _ _ _ _ _ Ht Hr).
  rewrite He, Hs. now rewrite <- !app_assoc.
Qed.

(** X2.  In an open candidate that finds the player the signal comes
    before the record and the record before the show is resolved.  So
    when the signal consumer raises, the exception leaves the handler
    with the slot as it was and neither resolver nor update called;
    when the resolver raises, the record is already stored and no
    update is submitted; and when both return, the record is stored
    whatever the update collaborator does. *)
Theorem X2_open_failure_order (path name p fd : string) (w : world) :
  Py.truthy (fst (fst (open_file w))) = false ->
  fst (_is_being_played re_players (procfs w) (Py.os_path_join path name))
  = (Some p, Some fd) ->
  let record := (Some (Py.os_path_join path name), Some p, Some fd) in
  let t1 :=
    trace w
    ++ [Debug (GotOpenEvent path name); ListProc]
    ++ map (fun m => Debug (Scan m))
           (snd (_is_being_played re_players (procfs w)
                   (Py.os_path_join path name)))
    ++ [EmitSignal "detected" path name] in
  (forall e b1,
      _emit_signal "detected" path name (base w) = (Raise e, b1) ->
      _proc_open re_players path name w
      = (Raise e, mkWorld (open_file w) b1 (procfs w) t1))
  /\
  (forall e b1 b2,
      _emit_signal "detected" path name (base w) = (Ret tt, b1) ->
      _get_playing_show (Some name) b1 = (Raise e, b2) ->
      _proc_open re_players path name w
      = (Raise e,
         mkWorld record b2 (procfs w) (t1 ++ [GetPlayingShow (Some name)])))
  /\
  (forall b1 r b2,
      _emit_signal "detected" path name (base w) = (Ret tt, b1) ->
      _get_playing_show (Some name) b1 = (Ret r, b2) ->
      open_file (snd (_proc_open re_players path name w)) = record).
Proof.
  intros Ht Hr record t1. repeat split.
  - intros e b1 He. rewrite (proc_open_found_run _ _ _ _ _ Ht Hr).
    now rewrite He.
  - intros e b1 b2 He Hs. rewrite (proc_open_found_run _ _ _ _ _ Ht Hr).
    now rewrite He, Hs.
  - intros b1 [state show_tuple] b2 He Hs.
    rewrite (proc_open_found_run _ _ _ _ _ Ht Hr). now rewrite He, Hs.
Qed.

(** X3.  In a close candidate that ends the tracking the signal comes
    before the slot is emptied and the slot is emptied before the show
    is resolved.  So when the signal consumer raises, the record stays
    and a later close candidate for the file is validated again; when
    the resolver raises, the slot is already empty, no update is
    submitted, and a later close candidate for the file does
    nothing. *)
Theorem X3_close_failure_order (path name : string) (w : world) :
  fst (fst (open_file w)) = Some (Py.os_path_join path name) ->
  _closed_handle (procfs w) (snd (fst (open_file w))) (snd (open_file w))
  = true ->
  let t1 :=
    trace w
    ++ [Debug (GotCloseEvent path name); Sleep100ms;
        IsLink (proc_fd_path (Py.str (snd (fst (open_file w))))
                             (Py.str (snd (open_file w))));
        EmitSignal "detected" path name] in
  (forall e b1,
      _emit_signal "detected" path name (base w) = (Raise e, b1) ->
      _proc_close path name w
      = (Raise e, mkWorld (open_file w) b1 (procfs w) t1) /\
      forall b' t',
        exists rest,
          trace (snd (_proc_close path name
                        (mkWorld (open_file w) b' (procfs w) t')))
          = t' ++ [Debug (GotCloseEvent path name); Sleep100ms;
                   IsLink (proc_fd_path (Py.str (snd (fst (open_file w))))
                                        (Py.str (snd (open_file w))));
                   EmitSignal "detected" path name] ++ rest)
  /\
  (forall e b1 b2,
      _emit_signal "detected" path name (base w) = (Ret tt, b1) ->
      _get_playing_show None b1 = (Raise e, b2) ->
      _proc_close path name w
      = (Raise e,
         mkWorld no_open_file b2 (procfs w) (t1 ++ [GetPlayingShow None])) /\
      forall b' fs t',
        _proc_close path name (mkWorld no_open_file b' fs t')
        = (Ret tt,
           mkWorld no_open_file b' fs
             (t' ++ [Debug (GotCloseEvent path name); Sleep100ms;
                     Debug DifferentFileClosed]))).
Proof.
  intros Heq Hc t1. split.
  - intros e b1 He. split.
    + rewrite (proc_close_closed_run _ _ _ Heq Hc). now rewrite He.
    + intros b' t'.
      rewrite (proc_close_closed_run path name (mkWorld _ _ _ _) Heq Hc).
      cbn [open_file base procfs trace].
      destruct (_emit_signal "detected" path name b') as [[[]|e'] b1'].
      * destruct (_get_playing_show None b1') as [[[st sh]|e'] b2'];
          cbn [snd trace]; eexists; rewrite <- !app_assoc; reflexivity.
      * cbn [snd trace]. exists []. now rewrite app_nil_r.
  - intros e b1 b2 He Hs. split.
    + rewrite (proc_close_closed_run _ _ _ Heq Hc). now rewrite He, Hs.
    + intros b' fs t'. now rewrite proc_close_other_file.
Qed.

End Transitions.

(** ** The state machine as a whole *)

Section StateMachine.

Context {B ShowTuple : Type} `{TB : TrackerBase B ShowTuple}.
Variable re_players : list byte -> bool.

Local Abbreviation world := (World B ShowTuple).

(** Where the handler sends an event. *)
Lemma EventHandler_cases (event : Event) (w : world) :
  EventHandler re_players event w = (Ret tt, w)
  \/
  (is_dir event = false /\ event_kind event = IN_OPEN /\
   EventHandler re_players event w
   = _proc_open re_players (ev_path event) (ev_name event) w)
  \/
  (is_dir event = false /\
   (event_kind event = IN_CLOSE_NOWRITE \/ event_kind event = IN_CLOSE_WRITE) /\
   EventHandler re_players event w
   = _proc_close (ev_path event) (ev_name event) w)
  \/
  (is_dir event = false /\
   exists signal,
     (signal = "detected" \/ signal = "removed") /\
     EventHandler re_players event w
     = self_emit_signal signal (ev_path event) (ev_name event) w).
Proof.
  destruct (is_dir event) eqn:Hdir.
  { left. now apply EventHandler_dir. }
  unfold EventHandler, process_IN_OPEN, process_IN_CLOSE_NOWRITE,
    process_IN_CLOSE_WRITE, process_IN_CREATE, process_IN_MOVED_TO,
    process_IN_MOVED_FROM, process_IN_DELETE.
  rewrite Hdir. cbn [negb].
  destruct (Z.eqb_spec (event_kind event) IN_OPEN) as [E|_];
    [right; left; auto|].
  destruct (Z.eqb_spec (event_kind event) IN_CLOSE_NOWRITE) as [E|_];
    [right; right; left; auto|].
  destruct (Z.eqb_spec (event_kind event) IN_CLOSE_WRITE) as [E|_];
    [right; right; left; auto|].
  destruct (Z.eqb_spec (event_kind event) IN_CREATE) as [E|_];
    [right; right; right; split; [reflexivity|]; exists "detected"; auto|].
  destruct (Z.eqb_spec (event_kind event) IN_MOVED_TO) as [E|_];
    [right; right; right; split; [reflexivity|]; exists "detected"; auto|].
  destruct (Z.eqb_spec (event_kind event) IN_MOVED_FROM) as [E|_];
    [right; right; right; split; [reflexivity|]; exists "removed"; auto|].
  destruct (Z.eqb_spec (event_kind event) IN_DELETE) as [E|_];
    [right; right; right; split; [reflexivity|]; exists "removed"; auto|].
  now left.
Qed.

Lemma all_digits_no_slash (s : string) :
  Py.all_digits s = true -> no_slash s = true.
Proof.
  induction s as [|c s IH]; simpl; [reflexivity|].
  intros H. apply andb_true_iff in H as [Hc Hs]. rewrite (IH Hs), andb_true_r.
  destruct (Ascii.eqb_spec c "/") as [->|]; [discriminate | reflexivity].
Qed.

Lemma isdigit_no_slash (s : string) :
  Py.isdigit s = true -> no_slash s = true.
Proof.
  destruct s; [discriminate | apply all_digits_no_slash].
Qed.

Lemma record_ok_no_slash (f : OpenFile) :
  record_ok f -> no_slash (Py.str (snd (fst f))) = true.
Proof.
  intros [-> | (pathname & pid & fd & -> & Hd)]; [reflexivity|].
  now apply isdigit_no_slash.
Qed.

Lemma proc_open_record (path name : string) (w : world) :
  record_ok (open_file w) ->
  record_ok (open_file (snd (_proc_open re_players path name w))).
Proof.
  intros Hok.
  destruct (Py.truthy (fst (fst (open_file w)))) eqn:Ht.
  { now rewrite proc_open_tracking. }
  destruct (scan_procs_shape re_players (Py.os_path_join path name) (procfs w))
    as [Hr | (p & fd & Hr & Hd)].
  { now rewrite proc_open_not_found. }
  rewrite (proc_open_found_run re_players path name p fd w Ht Hr).
  destruct (_emit_signal "detected" path name (base w)) as [[[]|e] b1];
    [|exact Hok].
  assert (Hrec : record_ok (Some (Py.os_path_join path name), Some p, Some fd)).
  { right. now eexists _, _, _. }
  destruct (_get_playing_show (Some name) b1) as [[[state show]|e] b2];
    exact Hrec.
Qed.

Lemma proc_close_record (path name : string) (w : world) :
  record_ok (open_file w) ->
  record_ok (open_file (snd (_proc_close path name w))).
Proof.
  intros Hok. destruct (proc_close_slot path name w) as [-> | ->];
    [exact Hok | now left].
Qed.

Lemma EventHandler_record (event : Event) (w : world) :
  record_ok (open_file w) ->
  record_ok (open_file (snd (EventHandler re_players event w))).
Proof.
  intros Hok.
  destruct (EventHandler_cases event w)
    as [-> | [(_ & _ & ->) | [(_ & _ & ->) | (_ & s & _ & ->)]]].
  - exact Hok.
  - now apply proc_open_record.
  - now apply proc_close_record.
  - now rewrite self_emit_signal_run.
Qed.

Lemma process_events_record (queue : list (ProcFS * Event)) (w : world) :
  record_ok (open_file w) ->
  record_ok (open_file (snd (process_events re_players queue w))).
Proof.
  revert w. induction queue as [|[fs event] rest IH]; intros w Hok.
  - exact Hok.
  - rewrite process_events_cons.
    pose proof (EventHandler_record event
                  (mkWorld (open_file w) (base w) fs (trace w)) Hok) as Hs.
    destruct (EventHandler re_players event
                (mkWorld (open_file w) (base w) fs (trace w)))
      as [[[]|e] w']; simpl in Hs; [now apply IH | exact Hs].
Qed.

Lemma loop_body_record (poll : Poll) (timeout : option Z) (w : world) :
  record_ok (open_file w) ->
  record_ok (open_file (snd (loop_body re_players poll timeout w))).
Proof.
  intros Hok. destruct poll as [queue| |e].
  - unfold loop_body, bind, effect, effects, get_base, ret. simpl.
    match goal with
    | |- context [process_events _ queue ?w1] =>
        pose proof (process_events_record queue w1 Hok) as Hq;
        destruct (process_events re_players queue w1) as [[[]|e] w2]
    end; exact Hq.
  - destruct timeout as [t|]; [|exact Hok].
    now rewrite loop_body_timeout.
  - exact Hok.
Qed.

Lemma loop_record (script : list Tick) (timeout : option Z) (w : world) :
  record_ok (open_file w) ->
  record_ok (open_file (snd (loop re_players script timeout w))).
Proof.
  revert timeout w. induction script as [|t rest IH]; intros timeout w Hok.
  - exact Hok.
  - simpl. destruct (active (tick_controller t (base w))); simpl;
      [|exact Hok].
    pose proof (loop_body_record (tick_poll t) timeout
                  (controller (tick_controller t) w) Hok) as Hb.
    destruct (loop_body re_players (tick_poll t) timeout
                (controller (tick_controller t) w)) as [[[t'|]|e] w2];
      simpl in Hb; [now apply IH | exact Hb | exact Hb].
Qed.

(** X4.  Whatever events are processed and however long the loop
    runs, the slot holds nothing or a record whose three parts are set
    and whose process id is a string of digits; so the path that the
    handle closure checker builds from the record has the process id
    as its second component and nothing else. *)
Theorem X4_record_has_numeric_pid (queue : list (ProcFS * Event))
    (script : list Tick) (timeout : option Z) (w : world) :
  record_ok (open_file w) ->
  (record_ok (open_file (snd (process_events re_players queue w))) /\
   no_slash (Py.str (snd (fst (open_file
               (snd (process_events re_players queue w)))))) = true)
  /\
  (record_ok (open_file (snd (loop re_players script timeout w))) /\
   no_slash (Py.str (snd (fst (open_file
               (snd (loop re_players script timeout w)))))) = true).
Proof.
  intros Hok.
  pose proof (process_events_record queue w Hok) as Hq.
  pose proof (loop_record script timeout w Hok) as Hl.
  repeat split; auto using record_ok_no_slash.
Qed.

(** X5.  As long as the correlator would return the recorded process
    and descriptor for the tracked path, a close candidate for that
    path does not end the tracking: the handle closure checker finds
    the link, the record stays and nothing is signalled. *)
Theorem X5_close_while_player_holds (path name p fd : string) (w : world) :
  open_file w = (Some (Py.os_path_join path name), Some p, Some fd) ->
  fst (_is_being_played re_players (procfs w) (Py.os_path_join path name))
  = (Some p, Some fd) ->
  _proc_close path name w
  = (Ret tt,
     mkWorld (open_file w) (base w) (procfs w)
       (trace w ++ [Debug (GotCloseEvent path name); Sleep100ms;
                    IsLink (proc_fd_path p fd);
                    Debug PidHasntClosed])).
Proof.
  intros Hof Hr.
  pose proof (returned_handle_is_open _ _ _ _ _ Hr) as Hopen.
  rewrite proc_close_still_open; rewrite Hof; auto.
Qed.

Lemma flat_map_fd_links_retarget (g : string -> string -> OSError + string)
    (fs : ProcFS) :
  flat_map fd_links (map (retarget g) fs) = flat_map fd_links fs.
Proof.
  induction fs as [|e fs IH]; [reflexivity|]. simpl. rewrite IH. f_equal.
  unfold fd_links, retarget. simpl.
  destruct (proc_fds e) as [err|fds]; [reflexivity|].
  rewrite map_map. reflexivity.
Qed.

(** X6.  The handle closure checker looks at the name of the
    descriptor only, not at what it points to: pointing the
    descriptors of the table elsewhere, or making them unresolvable,
    does not change its answer.  So when the recorded process still
    lists the recorded descriptor number, for whatever file, a close
    candidate for the tracked path leaves the tracker tracking. *)
Theorem X6_reused_descriptor_keeps_tracking
    (g : string -> string -> OSError + string) (fs : ProcFS)
    (pid fd : option string) :
  _closed_handle (map (retarget g) fs) pid fd = _closed_handle fs pid fd
  /\
  (forall (path name p n : string) (w : world) e fds target,
      open_file w = (Some (Py.os_path_join path name), Some p, Some n) ->
      In e (procfs w) ->
      proc_name e = p ->
      proc_fds e = inr fds ->
      In (n, target) fds ->
      _proc_close path name w
      = (Ret tt,
         mkWorld (open_file w) (base w) (procfs w)
           (trace w ++ [Debug (GotCloseEvent path name); Sleep100ms;
                        IsLink (proc_fd_path p n);
                        Debug PidHasntClosed]))).
Proof.
  split.
  - unfold _closed_handle, os_path_islink.
    now rewrite flat_map_fd_links_retarget.
  - intros path name p n w e fds target Hof He Hn Hfds Hin.
    rewrite proc_close_still_open; rewrite Hof; auto.
    unfold _closed_handle. apply negb_false_iff, os_path_islink_true.
    exists e, fds, n, target. simpl. now subst p.
Qed.

Lemma os_path_join_truthy (path name : string) :
  path <> "" \/ name <> "" ->
  Py.truthy (Some (Py.os_path_join path name)) = true.
Proof.
  intros Hne. unfold Py.os_path_join.
  destruct (Py.startswith_sep name) eqn:Hs.
  - destruct name; [discriminate | reflexivity].
  - destruct path as [|a path].
    + simpl. destruct name; [|reflexivity].
      destruct Hne as [H | H]; now elim H.
    + destruct (_ || _)%bool; reflexivity.
Qed.

(** X7.  After an open candidate for a named file has found the player
    and the signal consumer and the resolver have returned, the
    tracker is tracking: every further open candidate, for this or any
    other file and whatever /proc shows, only writes its two debug
    messages, so the file is signalled and submitted once. *)
Theorem X7_second_open_is_ignored (path name p fd : string) (w : world)
    (b1 b2 : B) (r : Z * ShowTuple) :
  path <> "" \/ name <> "" ->
  Py.truthy (fst (fst (open_file w))) = false ->
  fst (_is_being_played re_players (procfs w) (Py.os_path_join path name))
  = (Some p, Some fd) ->
  _emit_signal "detected" path name (base w) = (Ret tt, b1) ->
  _get_playing_show (Some name) b1 = (Ret r, b2) ->
  let w1 := snd (_proc_open re_players path name w) in
  open_file w1 = (Some (Py.os_path_join path name), Some p, Some fd) /\
  forall path' name' fs',
    _proc_open re_players path' name'
               (mkWorld (open_file w1) (base w1) fs' (trace w1))
    = (Ret tt,
       mkWorld (open_file w1) (base w1) fs'
         (trace w1 ++ [Debug (GotOpenEvent path' name');
                       Debug AlreadyTracked])).
Proof.
  intros Hne Ht Hr He Hs w1.
  assert (Hof : open_file w1
                = (Some (Py.os_path_join path name), Some p, Some fd)).
  { subst w1. rewrite (proc_open_found_run re_players _ _ _ _ _ Ht Hr).
    rewrite He, Hs. now destruct r. }
  split; [exact Hof|]. intros path' name' fs'.
  rewrite proc_open_tracking; [reflexivity|].
  cbn [open_file]. rewrite Hof. now apply os_path_join_truthy.
Qed.

(** X8.  The only way out of tracking is a validated close: when an
    event changes the slot while a file is tracked, the event is a
    close (written or not) that is no directory event, its full path
    is the tracked path, the handle closure checker reported the
    descriptor gone, the signal consumer returned, and the slot is
    empty afterwards. *)
Theorem X8_only_a_validated_close_ends_tracking (event : Event) (w : world) :
  Py.truthy (fst (fst (open_file w))) = true ->
  open_file (snd (EventHandler re_players event w)) <> open_file w ->
  is_dir event = false /\
  (event_kind event = IN_CLOSE_NOWRITE \/ event_kind event = IN_CLOSE_WRITE) /\
  fst (fst (open_file w))
  = Some (Py.os_path_join (ev_path event) (ev_name event)) /\
  _closed_handle (procfs w) (snd (fst (open_file w))) (snd (open_file w))
  = true /\
  (exists b1,
      _emit_signal "detected" (ev_path event) (ev_name event) (base w)
      = (Ret tt, b1)) /\
  open_file (snd (EventHandler re_players event w)) = no_open_file.
Proof.
  intros Ht Hch.
  destruct (EventHandler_cases event w)
    as [E | [(_ & _ & E) | [(Hd & Hk & E) | (_ & s & _ & E)]]];
    rewrite E in Hch |- *.
  - now elim Hch.
  - rewrite proc_open_tracking in Hch by exact Ht. now elim Hch.
  - set (path := ev_path event) in *. set (name := ev_name event) in *.
    destruct (option_string_eqb (Some (Py.os_path_join path name))
                                (fst (fst (open_file w)))) eqn:Heq.
    2:{ rewrite proc_close_other_file in Hch; [now elim Hch|].
        intros E'. symmetry in E'. apply option_string_eqb_eq in E'.
        congruence. }
    apply option_string_eqb_eq in Heq. symmetry in Heq.
    destruct (_closed_handle (procfs w) (snd (fst (open_file w)))
                             (snd (open_file w))) eqn:Hc.
    2:{ rewrite proc_close_still_open in Hch by assumption. now elim Hch. }
    rewrite (proc_close_closed_run path name w Heq Hc) in Hch |- *.
    destruct (_emit_signal "detected" path name (base w)) as [[[]|e] b1].
    + repeat split; auto; [now exists b1|].
      now destruct (_get_playing_show None b1) as [[[st sh]|e] b2].
    + now elim Hch.
  - rewrite self_emit_signal_run in Hch. now elim Hch.
Qed.

(** X9.  The only way into tracking is an open candidate that finds
    the player: when an event changes the empty slot, the event is an
    open that is no directory event, the correlator returned a process
    and descriptor for its full path, the signal consumer returned,
    and the slot holds that path, process and descriptor afterwards. *)
Theorem X9_only_a_found_open_starts_tracking (event : Event) (w : world) :
  open_file w = no_open_file ->
  open_file (snd (EventHandler re_players event w)) <> open_file w ->
  is_dir event = false /\
  event_kind event = IN_OPEN /\
  exists p fd b1,
    fst (_is_being_played re_players (procfs w)
           (Py.os_path_join (ev_path event) (ev_name event)))
    = (Some p, Some fd) /\
    _emit_signal "detected" (ev_path event) (ev_name event) (base w)
    = (Ret tt, b1) /\
    open_file (snd (EventHandler re_players event w))
    = (Some (Py.os_path_join (ev_path event) (ev_name event)),
       Some p, Some fd).
Proof.
  intros Hidle Hch.
  assert (Ht : Py.truthy (fst (fst (open_file w))) = false)
    by now rewrite Hidle.
  destruct (EventHandler_cases event w)
    as [E | [(Hd & Hk & E) | [(_ & _ & E) | (_ & s & _ & E)]]];
    rewrite E in Hch |- *.
  - now elim Hch.
  - set (path := ev_path event) in *. set (name := ev_name event) in *.
    destruct (scan_procs_shape re_players (Py.os_path_join path name)
                (procfs w)) as [Hr | (p & fd & Hr & _)].
    { rewrite proc_open_not_found in Hch by assumption. now elim Hch. }
    rewrite (proc_open_found_run re_players path name p fd w Ht Hr)
      in Hch |- *.
    destruct (_emit_signal "detected" path name (base w)) as [[[]|e] b1].
    + repeat split; auto. exists p, fd, b1. repeat split; auto.
      now destruct (_get_playing_show (Some name) b1) as [[[st sh]|e] b2].
    + now elim Hch.
  - rewrite proc_close_other_file in Hch; [now elim Hch|].
    rewrite Hidle. discriminate.
  - rewrite self_emit_signal_run in Hch. now elim Hch.
Qed.

End StateMachine.

(** ** More on the process scan *)

Section ScanMore.

Variable re_players : list byte -> bool.
Variable filename : string.

Lemma scan_procs_drop_whole (pre : ProcFS) (e : ProcEntry) (post : ProcFS) :
  scan_proc re_players filename e = (None, []) ->
  scan_procs re_players filename (pre ++ e :: post)
  = scan_procs re_players filename (pre ++ post).
Proof.
  intros He. rewrite (surjective_pairing (scan_procs _ _ (pre ++ e :: post))).
  rewrite (surjective_pairing (scan_procs _ _ (pre ++ post))). f_equal.
  - apply scan_procs_drop. now rewrite He.
  - now apply scan_procs_drop_log.
Qed.

(** X10.  One access failure hides the whole process from the scan,
    also what lies behind the failure: when a descriptor of a process
    cannot be resolved and the descriptors before it point to other
    files, or when a descriptor points to the file but the command
    line cannot be read, the process yields nothing and logs nothing,
    whatever its other descriptors are, and the answer and the log of
    the scan are those of the table without the process. *)
Theorem X10_access_failure_hides_process (e : ProcEntry)
    (before after : list FdEntry) (n : string) (err : OSError) :
  Py.isdigit (proc_name e) = true ->
  Forall (passed_over filename) before ->
  (proc_fds e = inr (before ++ (n, inl err) :: after)
   \/
   (proc_fds e = inr (before ++ (n, inr filename) :: after) /\
    proc_cmdline e = inl err)) ->
  caught re_players filename e = Some err /\
  scan_proc re_players filename e = (None, []) /\
  forall pre post,
    _is_being_played re_players (pre ++ e :: post) filename
    = _is_being_played re_players (pre ++ post) filename.
Proof.
  intros Hd Hb Hfail.
  assert (Hscan : exists fds,
             proc_fds e = inr fds /\
             scan_fds re_players (proc_name e) (proc_cmdline e) filename fds
             = (inl err, [])).
  { destruct Hfail as [Hfds | [Hfds Hc]]; eexists; (split; [exact Hfds|]);
      rewrite scan_fds_pass by exact Hb; simpl.
    - reflexivity.
    - now rewrite String.eqb_refl, Hc. }
  destruct Hscan as (fds & Hfds & Hscan).
  assert (Hp : scan_proc re_players filename e = (None, [])).
  { unfold scan_proc. now rewrite Hd, Hfds, Hscan. }
  repeat split.
  - unfold caught. now rewrite Hd, Hfds, Hscan.
  - exact Hp.
  - intros pre post. unfold _is_being_played. now apply scan_procs_drop_whole.
Qed.

(** X11.  Only the entries of /proc whose name is a number are looked
    at: the answer and the log of the scan are those of the table with
    every other entry taken out. *)
Theorem X11_only_numeric_entries_are_scanned (fs : ProcFS) :
  _is_being_played re_players fs filename
  = _is_being_played re_players
      (filter (fun e => Py.isdigit (proc_name e)) fs) filename.
Proof.
  unfold _is_being_played. induction fs as [|e fs IH]; [reflexivity|].
  simpl filter. destruct (Py.isdigit (proc_name e)) eqn:Hd.
  - simpl. rewrite IH. reflexivity.
  - rewrite <- IH. apply (scan_procs_drop_whole [] e fs).
    unfold scan_proc. now rewrite Hd.
Qed.

Lemma scan_fds_found_log (p : string) (cmdline : OSError + list byte)
    (fds : list FdEntry) (fd : string) :
  fst (scan_fds re_players p cmdline filename fds) = inr (Some fd) ->
  exists l c,
    snd (scan_fds re_players p cmdline filename fds)
    = l ++ [PlayingProcess p (command_name c) c] /\
    forallb holder_msg l = true /\
    re_players (command_name c) = true.
Proof.
  induction fds as [|[n link] fds IH]; simpl; [discriminate|].
  destruct link as [err|f]; [discriminate|].
  destruct (String.eqb f filename).
  - destruct cmdline as [err|c]; [discriminate|].
    unfold command_name in *.
    destruct (re_players (fst (fst (Py.partition x00 c)))) eqn:Hre; simpl.
    + intros _. exists [], c. auto.
    + destruct (scan_fds re_players p (inr c) filename fds) as [r l] eqn:E.
      simpl in *. intros Hr.
      destruct (IH Hr) as (l0 & c0 & -> & Hl0 & Hre0).
      exists (PlayingProcess p (fst (fst (Py.partition x00 c))) c
                :: NotReadByPlayer (fst (fst (Py.partition x00 c))) :: l0),
             c0.
      auto.
  - exact IH.
Qed.

Lemma scan_procs_found_log (fs : ProcFS) (p fd : string) :
  fst (scan_procs re_players filename fs) = (Some p, Some fd) ->
  exists l c,
    snd (scan_procs re_players filename fs)
    = l ++ [PlayingProcess p (command_name c) c] /\
    forallb holder_msg l = true /\
    re_players (command_name c) = true.
Proof.
  induction fs as [|e fs IH]; simpl; [discriminate|].
  pose proof (scan_proc_holder_msgs re_players filename e) as Hmsgs.
  unfold scan_proc in *.
  destruct (negb (Py.isdigit (proc_name e))).
  - simpl. destruct (scan_procs re_players filename fs) as [r l'].
    simpl in *. exact IH.
  - destruct (proc_fds e) as [err|fds].
    + simpl. destruct (scan_procs re_players filename fs) as [r l'].
      simpl in *. exact IH.
    + pose proof (scan_fds_found_log (proc_name e) (proc_cmdline e) fds)
        as Hfound.
      destruct (scan_fds re_players (proc_name e) (proc_cmdline e) filename
                         fds) as [[err|[fd'|]] l]; simpl in *.
      * destruct (scan_procs re_players filename fs) as [r l'].
        simpl in *. intros Hr.
        destruct (IH Hr) as (l0 & c & -> & Hl0 & Hre).
        exists (l ++ l0), c. rewrite app_assoc, forallb_app, Hmsgs, Hl0. auto.
      * intros [= <- <-]. exact (Hfound fd' eq_refl).
      * destruct (scan_procs re_players filename fs) as [r l'].
        simpl in *. intros Hr.
        destruct (IH Hr) as (l0 & c & -> & Hl0 & Hre).
        exists (l ++ l0), c. rewrite app_assoc, forallb_app, Hmsgs, Hl0. auto.
Qed.

(** X12.  The debug log of a scan tells its outcome.  The message that
    no playing process was found is logged exactly when the answer is
    (None, None), and then it is the last one; when a pair is returned,
    the last message is the one that names the returned process, with a
    command name that the player pattern matches. *)
Theorem X12_scan_log_tells_outcome (fs : ProcFS) :
  (fst (_is_being_played re_players fs filename) = (None, None) <->
   In CouldntFindPlayingProcess (snd (_is_being_played re_players fs filename)))
  /\
  (fst (_is_being_played re_players fs filename) = (None, None) ->
   exists l,
     snd (_is_being_played re_players fs filename)
     = l ++ [CouldntFindPlayingProcess])
  /\
  (forall p fd,
      fst (_is_being_played re_players fs filename) = (Some p, Some fd) ->
      exists l c,
        snd (_is_being_played re_players fs filename)
        = l ++ [PlayingProcess p (command_name c) c] /\
        re_players (command_name c) = true).
Proof.
  unfold _is_being_played. split; [|split].
  - split.
    + intros Hn. destruct (scan_procs_last_msg _ _ _ Hn) as [l ->].
      apply in_or_app. right. now left.
    + intros Hin.
      destruct (scan_procs_shape re_players filename fs)
        as [Hn | (p & fd & Hr & _)]; [exact Hn|].
      destruct (scan_procs_found_log fs p fd Hr) as (l & c & Hl & Hmsgs & _).
      rewrite Hl in Hin. apply in_app_or in Hin as [Hin | [Hin | []]].
      * rewrite forallb_forall in Hmsgs. now apply Hmsgs in Hin.
      * discriminate Hin.
  - apply scan_procs_last_msg.
  - intros p fd Hr.
    destruct (scan_procs_found_log fs p fd Hr) as (l & c & Hl & _ & Hre).
    now exists l, c.
Qed.

End ScanMore.

(** ** What the tracker does to the outside, and what it never does *)

Section Effects.

Context {B ShowTuple : Type} `{TB : TrackerBase B ShowTuple}.
Variable re_players : list byte -> bool.

Local Abbreviation world := (World B ShowTuple).
Local Abbreviation comp := (@M B ShowTuple).

Lemma adds_ret {A : Type} (P : Effect ShowTuple -> Prop) (a : A) :
  adds P (ret a : comp A).
Proof. intros w. exists []. simpl. now rewrite app_nil_r. Qed.

Lemma adds_raise {A : Type} (P : Effect ShowTuple -> Prop) (e : Exn) :
  adds P (raise e : comp A).
Proof. intros w. exists []. simpl. now rewrite app_nil_r. Qed.

Lemma adds_bind {A C : Type} (P : Effect ShowTuple -> Prop)
    (m : comp A) (k : A -> comp C) :
  adds P m -> (forall a, adds P (k a)) -> adds P (bind m k).
Proof.
  intros Hm Hk w. unfold bind. destruct (Hm w) as (l1 & H1 & P1).
  destruct (m w) as [[a|e] w1]; simpl in H1.
  - destruct (Hk a w1) as (l2 & H2 & P2). exists (l1 ++ l2). split.
    + now rewrite H2, H1, app_assoc.
    + apply Forall_app. now split.
  - now exists l1.
Qed.

Lemma adds_effects (P : Effect ShowTuple -> Prop)
    (es : list (Effect ShowTuple)) :
  Forall P es -> adds P (effects es : comp unit).
Proof. intros HP w. now exists es. Qed.

Lemma adds_call {A : Type} (P : Effect ShowTuple -> Prop)
    (f : B -> Result A * B) :
  adds P (call f : comp A).
Proof.
  intros w. exists []. unfold call. destruct (f (base w)). simpl.
  now rewrite app_nil_r.
Qed.

Lemma adds_state {A : Type} (P : Effect ShowTuple -> Prop)
    (f : world -> A) (g : world -> world) :
  (forall w, trace (g w) = trace w) ->
  adds P (fun w => (Ret (f w), g w)).
Proof. intros Hg w. exists []. simpl. now rewrite Hg, app_nil_r. Qed.

Lemma adds_weaken {A : Type} (P Q : Effect ShowTuple -> Prop) (m : comp A) :
  (forall e, P e -> Q e) -> adds P m -> adds Q m.
Proof.
  intros HPQ Hm w. destruct (Hm w) as (l & Hl & HP). exists l.
  split; [exact Hl|]. revert HP. apply Forall_impl. exact HPQ.
Qed.

Ltac adds_step :=
  first
    [ apply adds_ret
    | apply adds_raise
    | apply adds_call
    | apply adds_state; reflexivity
    | apply adds_effects
    | apply adds_bind; [| intros ? ]
    | match goal with
      | |- adds _ (if ?c then _ else _) => destruct c
      | |- adds _ (let '(_, _) := ?p in _) => destruct p
      | |- adds _ (match ?p with _ => _ end) => destruct p
      end ].

Ltac adds_leaf :=
  match goal with
  | |- Forall _ (map _ _) =>
      apply Forall_forall; intros ? Hin;
      apply in_map_iff in Hin as (? & <- & _); exact I
  | |- Forall _ _ =>
      repeat constructor; simpl; auto
  end.

Lemma adds_proc_open (fs : ProcFS) (event : Event) :
  is_dir event = false ->
  adds (handler_effect [(fs, event)])
       (_proc_open re_players (ev_path event) (ev_name event)).
Proof.
  intros Hd.
  unfold _proc_open, debug, effect, self_emit_signal, self_get_playing_show,
    self_update_show_if_needed, self_is_being_played, get_open_file,
    set_open_file, get_procfs.
  repeat adds_step; try adds_leaf.
  exists (fs, event). simpl. auto.
Qed.

Lemma adds_proc_close (fs : ProcFS) (event : Event) :
  is_dir event = false ->
  adds (handler_effect [(fs, event)])
       (_proc_close (ev_path event) (ev_name event) : comp unit).
Proof.
  intros Hd.
  unfold _proc_close, debug, effect, self_emit_signal, self_get_playing_show,
    self_update_show_if_needed, self_closed_handle, get_open_file,
    set_open_file, get_procfs.
  repeat adds_step; try adds_leaf.
  exists (fs, event). simpl. auto.
Qed.

Lemma adds_emit (fs : ProcFS) (event : Event) (signal : string) :
  is_dir event = false ->
  signal = "detected" \/ signal = "removed" ->
  adds (handler_effect [(fs, event)])
       (self_emit_signal signal (ev_path event) (ev_name event) : comp unit).
Proof.
  intros Hd Hs. unfold self_emit_signal, effect.
  repeat adds_step. constructor; [|constructor]. split; [exact Hs|].
  exists (fs, event). simpl. auto.
Qed.

Lemma adds_EventHandler (fs : ProcFS) (event : Event) :
  adds (handler_effect [(fs, event)]) (EventHandler re_players event).
Proof.
  intros w.
  destruct (EventHandler_cases re_players event w)
    as [-> | [(Hd & _ & ->) | [(Hd & _ & ->) | (Hd & s & Hs & ->)]]].
  - exists []. simpl. now rewrite app_nil_r.
  - now apply adds_proc_open.
  - now apply adds_proc_close.
  - now apply adds_emit.
Qed.

Lemma handler_effect_incl (q q' : list (ProcFS * Event))
    (e : Effect ShowTuple) :
  incl q q' -> handler_effect q e -> handler_effect q' e.
Proof.
  intros Hincl. destruct e; simpl; auto.
  intros (Hs & x & Hin & Hrest). split; [exact Hs|].
  exists x. split; [now apply Hincl | exact Hrest].
Qed.

Lemma adds_process_events (full queue : list (ProcFS * Event)) :
  incl queue full ->
  adds (handler_effect full) (process_events re_players queue).
Proof.
  induction queue as [|[fs event] rest IH]; intros Hincl; simpl.
  - apply adds_ret.
  - apply adds_bind; [apply adds_state; reflexivity | intros _].
    apply adds_bind.
    + apply (adds_weaken (handler_effect [(fs, event)]));
        [|apply adds_EventHandler].
      intros e. apply handler_effect_incl.
      intros x [<- | []]. apply Hincl. now left.
    + intros _. apply IH. intros x Hx. apply Hincl. now right.
Qed.

(** X13.  Processing a queue of events touches the outside only in
    these ways: it writes debug messages, lists /proc, tests a
    descriptor link, sleeps, calls the show resolver and the update
    collaborator, and emits signals.  Every signal it emits is
    [detected] or [removed] and carries the path and name of an event
    of the queue that is no directory event; it never polls or stops
    the notifier, adds a watch or writes to the info log. *)
Theorem X13_event_processing_effects (queue : list (ProcFS * Event))
    (w : world) :
  exists added,
    trace (snd (process_events re_players queue w)) = trace w ++ added /\
    Forall (handler_effect queue) added.
Proof.
  apply (adds_process_events queue queue). apply incl_refl.
Qed.

Lemma handler_effect_loop_effect (queue : list (ProcFS * Event))
    (e : Effect ShowTuple) :
  handler_effect queue e -> loop_effect e.
Proof. destruct e; simpl; auto; contradiction. Qed.

Lemma next_timeout_ok (b : B) : timeout_ok (next_timeout b).
Proof.
  unfold timeout_ok, next_timeout. destruct (_ || _)%bool; auto.
Qed.

Lemma adds_loop_body (poll : Poll) (timeout : option Z) :
  timeout_ok timeout ->
  adds loop_effect (loop_body re_players poll timeout).
Proof.
  intros Hok. unfold loop_body, effect.
  apply adds_bind;
    [apply adds_effects; constructor; [exact Hok | constructor]|].
  intros _. destruct poll as [queue| |e].
  - apply adds_bind; [apply adds_effects; repeat constructor | intros _].
    apply adds_bind.
    + apply (adds_weaken (handler_effect queue));
        [apply handler_effect_loop_effect|].
      apply adds_process_events, incl_refl.
    + intros _. unfold get_base. repeat adds_step.
  - destruct timeout as [t|]; [|apply adds_ret].
    unfold get_base, debug, effect, self_update_show_if_needed, effect.
    repeat adds_step; repeat constructor.
  - apply adds_raise.
Qed.

Lemma loop_body_next_ok (poll : Poll) (timeout timeout' : option Z)
    (w w' : world) :
  timeout_ok timeout ->
  loop_body re_players poll timeout w = (Ret (Again timeout'), w') ->
  timeout_ok timeout'.
Proof.
  intros Hok Hrun. destruct poll as [queue| |e].
  - apply loop_body_events in Hrun. injection Hrun as ->.
    apply next_timeout_ok.
  - destruct timeout as [t|]; [|discriminate].
    rewrite loop_body_timeout in Hrun.
    destruct (fst (update_show_if_needed _ _ _)); [|discriminate].
    now injection Hrun as <- _.
  - discriminate.
Qed.

Lemma loop_adds (script : list Tick) (timeout : option Z) (w : world) :
  timeout_ok timeout ->
  (exists added,
      trace (snd (loop re_players script timeout w)) = trace w ++ added /\
      Forall loop_effect added) /\
  (forall t, fst (loop re_players script timeout w) = Running t ->
             timeout_ok t).
Proof.
  revert timeout w. induction script as [|t rest IH]; intros timeout w Hok.
  - split; [exists []; simpl; now rewrite app_nil_r|].
    simpl. now intros t [= <-].
  - simpl. destruct (active (tick_controller t (base w))); simpl.
    2:{ split; [exists []; simpl; now rewrite app_nil_r | discriminate]. }
    destruct (adds_loop_body (tick_poll t) timeout Hok
                (controller (tick_controller t) w)) as (l1 & H1 & P1).
    destruct (loop_body re_players (tick_poll t) timeout
                (controller (tick_controller t) w)) as [[[t'|]|e] w2]
      eqn:Hbody; simpl in H1.
    + destruct (IH t' w2 (loop_body_next_ok _ _ _ _ _ Hok Hbody))
        as [(l2 & H2 & P2) Hrun].
      split; [|exact Hrun]. exists (l1 ++ l2). split.
      * now rewrite H2, H1, app_assoc.
      * apply Forall_app. now split.
    + split; [now exists l1 | discriminate].
    + split; [now exists l1 | discriminate].
Qed.

(** X14.  What a run of [observe] does to the outside has this shape:
    the announcement, the debug message and the one [add_watch], with
    the mask of the seven event kinds, recursive; then what the loop
    does, in which the notifier is never stopped, no watch is added and
    every wait has no timeout or a timeout of 1000 ms; and at the end
    the stop of the notifier and the closing message, exactly when the
    run has left the loop.  A loop that is still running holds no
    timeout or 1000 ms. *)
Theorem X14_shape_of_a_run (watch_dir : string) (interval : Z)
    (script : list Tick) (w : world) :
  (exists added,
      trace (snd (observe re_players watch_dir interval script w))
      = trace w
        ++ [Info UsingPyinotify; Debug (WatchingDirectory watch_dir);
            AddWatch watch_dir watch_mask]
        ++ added
        ++ (if exited (fst (observe re_players watch_dir interval script w))
            then [NotifierStop; Info TrackerHasStopped]
            else []) /\
      Forall loop_effect added)
  /\
  (forall t,
      fst (observe re_players watch_dir interval script w) = Running t ->
      t = None \/ t = Some 1000).
Proof.
  destruct (loop_adds script None (observe_setup watch_dir w))
    as [(added & Hadd & Hall) Hrun]; [now left|].
  unfold observe.
  destruct (loop re_players script None (observe_setup watch_dir w))
    as [[ |e| |t] w1]; simpl in *.
  - split; [|discriminate]. exists added. split; [|exact Hall].
    rewrite Hadd. now rewrite <- !app_assoc.
  - split; [|discriminate]. exists added. split; [|exact Hall].
    rewrite Hadd. now rewrite <- !app_assoc.
  - split; [|discriminate]. exists added. split; [|exact Hall].
    rewrite Hadd, app_nil_r. now rewrite <- !app_assoc.
  - split; [|exact Hrun]. exists added. split; [|exact Hall].
    rewrite Hadd, app_nil_r. now rewrite <- !app_assoc.
Qed.

End Effects.

(** ** The watch mask and the handler *)

Section MaskAndHandlers.

Context {B ShowTuple : Type} `{TB : TrackerBase B ShowTuple}.
Variable re_players : list byte -> bool.

Local Abbreviation world := (World B ShowTuple).









End MaskAndHandlers.

(** ** The further properties at work *)

Lemma X1_witness :
  _proc_open Demo.re_mpv "/media" "show.mkv" Demo.ready
  = (Ret tt,
     mkWorld (Some "/media/show.mkv", Some "42", Some "5")
       (Demo.mkBase true Demo.PLAYING (Some ("show.mkv", 1)) false)
       Demo.playing
       [Debug (GotOpenEvent "/media" "show.mkv"); ListProc;
        Debug (Scan (PlayingProcess "42"
                       (list_byte_of_string "/usr/bin/mpv")
                       Demo.mpv_cmdline));
        EmitSignal "detected" "/media" "show.mkv";
        GetPlayingShow (Some "show.mkv");
        Debug (GotStatus Demo.PLAYING (Some ("show.mkv", 1)));
        UpdateShowIfNeeded Demo.PLAYING (Some ("show.mkv", 1))]).
Proof.
  refine (X1_open_starts_tracking Demo.re_mpv "/media" "show.mkv" "42" "5"
            Demo.ready (base Demo.ready) (base Demo.ready) Demo.PLAYING
            (Some ("show.mkv", 1)) _ _ _ _); reflexivity.
Defined.

Lemma X2_witness :
  _proc_open Demo.re_mpv "/media" "show.mkv" Faulty.ready
  = (Raise Faulty.no_library,
     mkWorld (Some "/media/show.mkv", Some "42", Some "5")
       (Faulty.mkBase true 1) Demo.playing
       [Debug (GotOpenEvent "/media" "show.mkv"); ListProc;
        Debug (Scan (PlayingProcess "42"
                       (list_byte_of_string "/usr/bin/mpv")
                       Demo.mpv_cmdline));
        EmitSignal "detected" "/media" "show.mkv";
        GetPlayingShow (Some "show.mkv")]).
Proof.
  refine (proj1 (proj2 (X2_open_failure_order Demo.re_mpv "/media" "show.mkv"
                          "42" "5" Faulty.ready _ _))
                Faulty.no_library (Faulty.mkBase true 1)
                (Faulty.mkBase true 1) _ _); reflexivity.
Defined.

Lemma X3_witness :
  _proc_close "/media" "show.mkv" Faulty.finished
  = (Raise Faulty.no_library,
     mkWorld no_open_file (Faulty.mkBase true 2) Demo.quiet
       [Debug (GotCloseEvent "/media" "show.mkv"); Sleep100ms;
        IsLink "/proc/42/fd/5"; EmitSignal "detected" "/media" "show.mkv";
        GetPlayingShow None]).
Proof.
  refine (proj1 (proj2 (X3_close_failure_order "/media" "show.mkv"
                          Faulty.finished _ _)
                       Faulty.no_library (Faulty.mkBase true 2)
                       (Faulty.mkBase true 2) _ _)); reflexivity.
Defined.

Lemma X4_witness :
  record_ok (open_file (snd (loop Demo.re_mpv Demo.evening None Demo.idle))).
Proof.
  exact (proj1 (proj2 (X4_record_has_numeric_pid Demo.re_mpv [] Demo.evening
                         None Demo.idle (or_introl eq_refl)))).
Defined.

Lemma X5_witness :
  _proc_close "/media" "show.mkv" Demo.tracking
  = (Ret tt,
     mkWorld (open_file Demo.tracking) (base Demo.tracking) Demo.playing
       [Debug (GotCloseEvent "/media" "show.mkv"); Sleep100ms;
        IsLink "/proc/42/fd/5"; Debug PidHasntClosed]).
Proof.
  refine (X5_close_while_player_holds Demo.re_mpv "/media" "show.mkv" "42" "5"
            Demo.tracking _ _); reflexivity.
Defined.

Lemma X6_witness :
  _proc_close "/media" "show.mkv"
    (mkWorld (open_file Demo.tracking) (base Demo.tracking)
       (map (retarget (fun _ _ => inr "/media/other.mkv")) Demo.playing) [])
  = (Ret tt,
     mkWorld (open_file Demo.tracking) (base Demo.tracking)
       (map (retarget (fun _ _ => inr "/media/other.mkv")) Demo.playing)
       [Debug (GotCloseEvent "/media" "show.mkv"); Sleep100ms;
        IsLink "/proc/42/fd/5"; Debug PidHasntClosed]).
Proof.
  refine (proj2 (X6_reused_descriptor_keeps_tracking (B:=Demo.Base)
                   (fun _ _ => inr "/media/other.mkv") Demo.playing None None)
                "/media" "show.mkv" "42" "5"
                (mkWorld (open_file Demo.tracking) (base Demo.tracking)
                   (map (retarget (fun _ _ => inr "/media/other.mkv"))
                        Demo.playing) [])
                (retarget (fun _ _ => inr "/media/other.mkv")
                   (mkProc "42" (inr [("5", inr "/media/show.mkv")])
                           (inr Demo.mpv_cmdline)))
                [("5", inr "/media/other.mkv")] (inr "/media/other.mkv")
                _ _ _ _ _).
  - reflexivity.
  - left. reflexivity.
  - reflexivity.
  - reflexivity.
  - left. reflexivity.
Defined.

Lemma X7_witness :
  _proc_open Demo.re_mpv "/media" "show.mkv"
    (snd (_proc_open Demo.re_mpv "/media" "show.mkv" Demo.ready))
  = (Ret tt,
     mkWorld (Some "/media/show.mkv", Some "42", Some "5")
       (Demo.mkBase true Demo.PLAYING (Some ("show.mkv", 1)) false)
       Demo.playing
       (trace (snd (_proc_open Demo.re_mpv "/media" "show.mkv" Demo.ready))
        ++ [Debug (GotOpenEvent "/media" "show.mkv"); Debug AlreadyTracked])).
Proof.
  refine (proj2 (X7_second_open_is_ignored Demo.re_mpv "/media" "show.mkv"
                   "42" "5" Demo.ready (base Demo.ready) (base Demo.ready)
                   (Demo.PLAYING, Some ("show.mkv", 1)) _ _ _ _ _)
                "/media" "show.mkv" Demo.playing).
  - left. discriminate.
  - reflexivity.
  - reflexivity.
  - reflexivity.
  - reflexivity.
Defined.

Lemma X8_witness :
  is_dir Demo.close_show = false /\
  open_file (snd (EventHandler Demo.re_mpv Demo.close_show Demo.finished))
  = no_open_file.
Proof.
  assert (H : open_file (snd (EventHandler Demo.re_mpv Demo.close_show
                                Demo.finished))
              <> open_file Demo.finished)
    by (vm_compute; discriminate).
  destruct (X8_only_a_validated_close_ends_tracking Demo.re_mpv
              Demo.close_show Demo.finished eq_refl H)
    as (Hd & _ & _ & _ & _ & Hslot).
  split; assumption.
Defined.

Lemma X9_witness :
  event_kind Demo.open_show = IN_OPEN /\
  exists p fd,
    fst (_is_being_played Demo.re_mpv Demo.playing "/media/show.mkv")
    = (Some p, Some fd).
Proof.
  assert (H : open_file (snd (EventHandler Demo.re_mpv Demo.open_show
                                Demo.ready))
              <> open_file Demo.ready)
    by (vm_compute; discriminate).
  destruct (X9_only_a_found_open_starts_tracking Demo.re_mpv
              Demo.open_show Demo.ready eq_refl H)
    as (_ & Hk & p & fd & _ & Hfound & _).
  split; [exact Hk|]. exists p, fd. exact Hfound.
Defined.

Lemma X10_witness :
  _is_being_played Demo.re_mpv [Demo.hidden] "/media/show.mkv"
  = ((None, None), [CouldntFindPlayingProcess]) /\
  find_player Demo.re_mpv [Demo.hidden] "/media/show.mkv" = Some ("42", "5").
Proof.
  split; [|reflexivity].
  refine (eq_trans
            (proj2 (proj2
               (X10_access_failure_hides_process Demo.re_mpv
                  "/media/show.mkv" Demo.hidden []
                  [("5", inr "/media/show.mkv")] "3" FileNotFoundError
                  _ _ _)) [] [])
            _).
  - reflexivity.
  - constructor.
  - left. reflexivity.
  - reflexivity.
Defined.

Lemma X12_witness :
  exists l c,
    snd (_is_being_played Demo.re_mpv Demo.busy "/media/show.mkv")
    = l ++ [PlayingProcess "42" (command_name c) c] /\
    Demo.re_mpv (command_name c) = true.
Proof.
  refine (proj2 (proj2 (X12_scan_log_tells_outcome Demo.re_mpv
                          "/media/show.mkv" Demo.busy)) "42" "5" _).
  reflexivity.
Defined.

Lemma X14_witness :
  exists added,
    trace (snd (observe Demo.re_mpv "/media" 1
                  (Demo.evening ++ [Demo.stop_tick]) Demo.idle))
    = [Info UsingPyinotify; Debug (WatchingDirectory "/media");
       AddWatch "/media" watch_mask]
      ++ added ++ [NotifierStop; Info TrackerHasStopped] /\
    Forall loop_effect added.
Proof.
  destruct (proj1 (X14_shape_of_a_run Demo.re_mpv "/media" 1
                     (Demo.evening ++ [Demo.stop_tick]) Demo.idle))
    as (added & Htrace & Hall).
  assert (E : exited (fst (observe Demo.re_mpv "/media" 1
                             (Demo.evening ++ [Demo.stop_tick]) Demo.idle))
              = true)
    by (vm_compute; reflexivity).
  rewrite E in Htrace. exists added. split; [exact Htrace | exact Hall].
Defined.

